(** * build/fuses/build.py: the fuse table generator

    A shallow embedding of the script that renders [fuses.h] and [fuses.cc]
    from the parsed [fuses.json] document, and the properties of the text
    it produces.

    Modelling conventions.
    - A Python [str] is a [string]; its characters are code points below
      256.  [str.title] is embedded for 7-bit ASCII, where the cased
      characters are exactly the Latin letters; statements that mention
      accessor names assume ASCII identifiers ([ascii7]).
    - The parsed JSON document is an insertion-ordered association list;
      a Python [dict] has pairwise distinct keys ([distinct_keys]).
    - Exceptions are values of [exn]; the script's straight-line code is
      written in the error monad [result].
    - The two output files live in a [filesystem]: a content map and the
      set of paths that can be opened for writing. *)

From Stdlib Require Import Bool Arith ZArith Lia List Ascii String DecimalString.
Import ListNotations.
Open Scope string_scope.

(** ** Python string operations used by the script *)

(** The double quote character, as a one-character string. *)
Definition dq : string := String "034"%char EmptyString.

(** [s.replace(old, new)] for a non-empty [old]: scan left to right; at an
    occurrence emit [new] and skip the rest of the occurrence. *)
Fixpoint replace_from (old new : string) (skip : nat) (s : string) : string :=
  match s with
  | EmptyString => EmptyString
  | String c s' =>
      match skip with
      | S k => replace_from old new k s'
      | O =>
          if prefix old s
          then new ++ replace_from old new (String.length old - 1) s'
          else String c (replace_from old new 0 s')
      end
  end.

(** [s.replace("", new)] puts [new] around every character. *)
Fixpoint interleave (new s : string) : string :=
  match s with
  | EmptyString => EmptyString
  | String c s' => String c (new ++ interleave new s')
  end.

Definition replace (old new s : string) : string :=
  match old with
  | EmptyString => new ++ interleave new s
  | String _ _ => replace_from old new 0 s
  end.

(** [str.isspace] on code points below 256. *)
Definition is_space (c : ascii) : bool :=
  let n := nat_of_ascii c in
  (((9 <=? n) && (n <=? 13)) || ((28 <=? n) && (n <=? 32))
   || (n =? 133) || (n =? 160))%nat.

Fixpoint lstrip (s : string) : string :=
  match s with
  | EmptyString => EmptyString
  | String c s' => if is_space c then lstrip s' else s
  end.

Fixpoint rstrip (s : string) : string :=
  match s with
  | EmptyString => EmptyString
  | String c s' =>
      match rstrip s' with
      | EmptyString => if is_space c then EmptyString else String c EmptyString
      | r => String c r
      end
  end.

(** [s.strip()] *)
Definition strip (s : string) : string := rstrip (lstrip s).

(** [s.split(sep)] for a one-character separator. *)
Fixpoint split (sep : ascii) (s : string) : list string :=
  match s with
  | EmptyString => [EmptyString]
  | String c s' =>
      if Ascii.eqb c sep then EmptyString :: split sep s'
      else match split sep s' with
           | w :: ws => String c w :: ws
           | [] => [String c EmptyString]
           end
  end.

Definition is_upper (c : ascii) : bool :=
  let n := nat_of_ascii c in ((65 <=? n) && (n <=? 90))%nat.

Definition is_lower (c : ascii) : bool :=
  let n := nat_of_ascii c in ((97 <=? n) && (n <=? 122))%nat.

Definition is_cased (c : ascii) : bool := is_upper c || is_lower c.

Definition to_upper (c : ascii) : ascii :=
  if is_lower c then ascii_of_nat (nat_of_ascii c - 32) else c.

Definition to_lower (c : ascii) : ascii :=
  if is_upper c then ascii_of_nat (nat_of_ascii c + 32) else c.

(** [s.title()]: a character that follows a cased character is lowered,
    any other character is put in title case. *)
Fixpoint title_from (previous_is_cased : bool) (s : string) : string :=
  match s with
  | EmptyString => EmptyString
  | String c s' =>
      String (if previous_is_cased then to_lower c else to_upper c)
             (title_from (is_cased c) s')
  end.

Definition title (s : string) : string := title_from false s.

(** [''.join(ws)] *)
Definition join (ws : list string) : string := String.concat EmptyString ws.

(** [str(n)] for a non-negative integer. *)
Definition str (n : nat) : string := NilZero.string_of_uint (Nat.to_uint n).

(** [chr(n)] for [n] below 256. *)
Definition chr (n : nat) : string := String (ascii_of_nat n) EmptyString.

Definition ascii7_char (c : ascii) : bool := (nat_of_ascii c <? 128)%nat.

Fixpoint ascii7 (s : string) : bool :=
  match s with
  | EmptyString => true
  | String c s' => ascii7_char c && ascii7 s'
  end.

(** ** JSON values, dictionaries, exceptions *)

Inductive value : Type :=
| VNull
| VBool (b : bool)
| VInt (z : Z)
| VStr (s : string).

(** Truth value of a JSON value in a conditional expression. *)
Definition truthy (v : value) : bool :=
  match v with
  | VNull => false
  | VBool b => b
  | VInt z => negb (z =? 0)%Z
  | VStr s => negb (s =? EmptyString)
  end.

Definition dict : Type := list (string * value).

Inductive exn : Type :=
| KeyError (key : string)
| TypeError
| ValueError
| OverflowError
| Exception (msg : string)
| OSError (path : string).

Inductive result (A : Type) : Type :=
| Ok (a : A)
| Raise (e : exn).

Arguments Ok {A} a.
Arguments Raise {A} e.

Definition bind {A B : Type} (r : result A) (k : A -> result B) : result B :=
  match r with
  | Ok a => k a
  | Raise e => Raise e
  end.

Notation "x <- r ;; k" := (bind r (fun x => k))
  (at level 61, r at next level, right associativity).

Fixpoint dict_get (k : string) (d : dict) : option value :=
  match d with
  | [] => None
  | (k', v) :: d' => if k' =? k then Some v else dict_get k d'
  end.

(** [d[k]] *)
Definition getitem (k : string) (d : dict) : result value :=
  match dict_get k d with
  | Some v => Ok v
  | None => Raise (KeyError k)
  end.

(** [del d[k]], returning the dictionary after the deletion. *)
Fixpoint delitem (k : string) (d : dict) : result dict :=
  match d with
  | [] => Raise (KeyError k)
  | (k', v) :: d' =>
      if k' =? k then Ok d'
      else d'' <- delitem k d' ;; Ok ((k', v) :: d'')
  end.

(** [d.keys()], in insertion order. *)
Definition keys (d : dict) : list string := map fst d.

Fixpoint distinct_keys (d : dict) : bool :=
  match d with
  | [] => true
  | (k, _) :: d' =>
      match dict_get k d' with
      | Some _ => false
      | None => distinct_keys d'
      end
  end.

(** ** The script *)

Definition SENTINEL : string := "dL7pKGdnNz796PbbjQWNKmHXBZaB9tsX".

Definition TEMPLATE_H : string := "
#ifndef ELECTRON_FUSES_H_
#define ELECTRON_FUSES_H_

namespace electron {

namespace fuses {

extern const volatile char kFuseWire[];

{getters}

}  // namespace fuses

}  // namespace electron

#endif  // ELECTRON_FUSES_H_
".

Definition TEMPLATE_CC : string := "
#include " ++ dq ++ "electron/fuses.h" ++ dq ++ "

#include <iostream>

namespace electron {

namespace fuses {

const volatile char kFuseWire[] = " ++ dq ++ "{sentinel}{fuse_version}{initial_config}" ++ dq ++ ";

{getters}

}

}
".

(** The two string literals of the loop body that [{name}] and [{index}]
    are substituted into. *)
Definition GETTER_H : string := "bool Is{name}Enabled();
".

Definition GETTER_CC : string := "
__attribute__((__visibility__(" ++ dq ++ "default" ++ dq ++ "))) bool Is{name}Enabled() {
  return kFuseWire[{index}] == '1';
}
".

(** The variables the loop updates. *)
Record acc : Type := mk_acc {
  index : nat;
  initial_config : string;
  getters_h : string;
  getters_cc : string
}.

(** [''.join(word.title() for word in fuse.split('_'))] *)
Definition accessor_name (fuse : string) : string :=
  join (map title (split "_"%char fuse)).

(** One iteration of [for fuse in fuses]. *)
Definition loop_body (fuse_defaults : dict) (a : acc) (fuse : string)
  : result acc :=
  let index := index a + 1 in
  v <- getitem fuse fuse_defaults ;;
  let initial_config :=
    initial_config a ++ (if truthy v then "1" else "0") in
  let name := accessor_name fuse in
  let getters_h := getters_h a ++ replace "{name}" name GETTER_H in
  let getters_cc :=
    getters_cc a
    ++ replace "{index}" (str index) (replace "{name}" name GETTER_CC) in
  Ok (mk_acc index initial_config getters_h getters_cc).

Fixpoint loop (fuse_defaults : dict) (fuses : list string) (a : acc)
  : result acc :=
  match fuses with
  | [] => Ok a
  | fuse :: rest =>
      a' <- loop_body fuse_defaults a fuse ;; loop fuse_defaults rest a'
  end.

(** [fuse_version >= pow(2, 8)]; a Boolean is the integer 0 or 1, other
    values do not compare with an integer. *)
Definition ge_pow_2_8 (fuse_version : value) : result bool :=
  match fuse_version with
  | VInt z => Ok (256 <=? z)%Z
  | VBool _ => Ok false
  | VNull | VStr _ => Raise TypeError
  end.

(** [chr(fuse_version)], evaluated once the version is known to be below
    256.  The interpreter first converts the argument to a C [int]: an
    integer below [-2^31] raises [OverflowError], any other negative
    integer [ValueError]. *)
Definition chr_value (fuse_version : value) : result string :=
  match fuse_version with
  | VInt z =>
      if (z <? 0)%Z
      then Raise (if (z <? -2147483648)%Z then OverflowError else ValueError)
      else Ok (chr (Z.to_nat z))
  | VBool b => Ok (chr (if b then 1 else 0))
  | VNull | VStr _ => Raise TypeError
  end.

(** Lines 55 to 76: the version check, the loop and the two renderings,
    from the version and the dictionary left after the two deletions. *)
Definition generate (fuse_version : value) (fuse_defaults : dict)
  : result (string * string) :=
  too_big <- ge_pow_2_8 fuse_version ;;
  if too_big : bool
  then Raise (Exception "Fuse version can not exceed one byte in size")
  else
    let fuses := keys fuse_defaults in
    a <- loop fuse_defaults fuses
           (mk_acc (String.length SENTINEL) EmptyString EmptyString EmptyString) ;;
    let header := replace "{getters}" (strip (getters_h a)) TEMPLATE_H in
    let with_sentinel := replace "{sentinel}" SENTINEL TEMPLATE_CC in
    c <- chr_value fuse_version ;;
    let impl :=
      replace "{getters}" (strip (getters_cc a))
        (replace "{initial_config}" (initial_config a)
           (replace "{fuse_version}" c with_sentinel)) in
    Ok (header, impl).

(** Lines 51 to 76, from the document [json.load] returned. *)
Definition render (fuse_defaults : dict) : result (string * string) :=
  fuse_version <- getitem "_version" fuse_defaults ;;
  fuse_defaults <- delitem "_version" fuse_defaults ;;
  fuse_defaults <- delitem "_comment" fuse_defaults ;;
  generate fuse_version fuse_defaults.

(** ** Output files *)

Record filesystem : Type := mk_fs {
  content : string -> option string;
  writable : string -> bool
}.

(** [with open(path, 'w') as f: f.write(data)]: opening fails on a path
    that cannot be written; otherwise the file holds exactly [data]. *)
Definition write_file (path data : string) (fs : filesystem)
  : filesystem * result unit :=
  if writable fs path
  then (mk_fs (fun p => if p =? path then Some data else content fs p)
              (writable fs), Ok tt)
  else (fs, Raise (OSError path)).

(** The whole script, started with [sys.argv[1]] and [sys.argv[2]]. *)
Definition main (fuse_defaults : dict) (argv1 argv2 : string)
  (fs : filesystem) : filesystem * result unit :=
  match render fuse_defaults with
  | Raise e => (fs, Raise e)
  | Ok (header, impl) =>
      match write_file argv1 header fs with
      | (fs1, Raise e) => (fs1, Raise e)
      | (fs1, Ok _) => write_file argv2 impl fs1
      end
  end.

(** The exit status of the interpreter: an uncaught exception ends it
    with status 1. *)
Definition exit_status (r : result unit) : nat :=
  match r with
  | Ok _ => 0
  | Raise _ => 1
  end.

(** ** Vocabulary of the statements *)

Definition nl : string := String "010"%char EmptyString.

(** The dictionary without the entries of key [k]. *)
Definition without (k : string) (d : dict) : dict :=
  filter (fun kv => negb (fst kv =? k)) d.

(** The fuse entries of a document: everything but the two metadata keys,
    in insertion order. *)
Definition fuse_items (doc : dict) : dict :=
  without "_comment" (without "_version" doc).

Definition bit (v : value) : ascii := if truthy v then "1"%char else "0"%char.

Fixpoint bitstring (fuses : dict) : string :=
  match fuses with
  | [] => EmptyString
  | (_, v) :: rest => String (bit v) (bitstring rest)
  end.

(** [SENTINEL + chr(version) + bitstring] *)
Definition wire (version : nat) (fuses : dict) : string :=
  SENTINEL ++ chr version ++ bitstring fuses.

Definition accessor (fuse : string) : string :=
  "Is" ++ accessor_name fuse ++ "Enabled".

(** The declaration of a fuse's accessor in the declarations file. *)
Definition declaration (fuse : string) : string :=
  "bool " ++ accessor fuse ++ "();".

(** The definition of a fuse's accessor, reading the wire at [offset]. *)
Definition definition (fuse : string) (offset : nat) : string :=
  "__attribute__((__visibility__(" ++ dq ++ "default" ++ dq ++ "))) bool "
  ++ accessor fuse ++ "() {" ++ nl
  ++ "  return kFuseWire[" ++ str offset ++ "] == '1';" ++ nl ++ "}".

(** The definitions of the fuses [fuses], the first one at [offset]. *)
Fixpoint definitions (offset : nat) (fuses : list string) : list string :=
  match fuses with
  | [] => []
  | fuse :: rest => definition fuse offset :: definitions (S offset) rest
  end.

(** The fixed text of the two files around the substituted parts. *)
Definition H_PRE : string := "
#ifndef ELECTRON_FUSES_H_
#define ELECTRON_FUSES_H_

namespace electron {

namespace fuses {

extern const volatile char kFuseWire[];

".

Definition H_POST : string := "

}  // namespace fuses

}  // namespace electron

#endif  // ELECTRON_FUSES_H_
".

Definition CC_PRE : string := "
#include " ++ dq ++ "electron/fuses.h" ++ dq ++ "

#include <iostream>

namespace electron {

namespace fuses {

const volatile char kFuseWire[] = " ++ dq.

Definition CC_MID : string := dq ++ ";

".

Definition CC_POST : string := "

}

}
".

(** The declarations file for the fuses [fuses]. *)
Definition header_of (fuses : list string) : string :=
  H_PRE ++ String.concat nl (map declaration fuses) ++ H_POST.

(** The definitions file for version [version] and the fuses [fuses]. *)
Definition impl_of (version : nat) (fuses : dict) : string :=
  CC_PRE ++ wire version fuses ++ CC_MID
  ++ String.concat (nl ++ nl)
       (definitions (String.length SENTINEL + 1) (keys fuses))
  ++ CC_POST.

(** A document with an integer version in the range of one byte, a
    comment, and pairwise distinct keys. *)
Definition valid_schema (doc : dict) (version : nat) : Prop :=
  distinct_keys doc = true
  /\ dict_get "_version" doc = Some (VInt (Z.of_nat version))
  /\ version < 256
  /\ dict_get "_comment" doc <> None.

(** A character that a string literal holds as it is: printable ASCII
    other than the quote and the backslash. *)
Definition literal_char (c : ascii) : bool :=
  let n := nat_of_ascii c in
  ((32 <=? n) && (n <=? 126))%nat
  && negb (Ascii.eqb c "034") && negb (Ascii.eqb c "092").

Definition octal_digit (n : nat) : ascii := ascii_of_nat (48 + n mod 8).

(** String escaping in the words of the specification: a character that
    is special inside a string literal, or not printable, is written as a
    backslash and its three octal digits; any other character is written
    as it is.  To be compared with the text the script emits. *)
Definition escape_char (c : ascii) : string :=
  if literal_char c then String c EmptyString
  else
    let n := nat_of_ascii c in
    String "092"
      (String (octal_digit (n / 64))
         (String (octal_digit (n / 8))
            (String (octal_digit n) EmptyString))).

Fixpoint string_escape (s : string) : string :=
  match s with
  | EmptyString => EmptyString
  | String c s' => escape_char c ++ string_escape s'
  end.

(** The text of the definitions file that follows the opening quote of
    the wire constant. *)
Definition after_open_quote (impl : string) : string :=
  substring (String.length CC_PRE) (String.length impl - String.length CC_PRE) impl.

(** The example schema of the specification. *)
Definition example_schema : dict :=
  [ ("_version", VInt 3); ("_comment", VStr "x");
    ("enable_widget", VBool true); ("enable_gadget", VBool false) ].

(** The example schema with a version that does not fit one byte. *)
Definition overflow_schema : dict :=
  [ ("_version", VInt 256); ("_comment", VStr "x");
    ("enable_widget", VBool true); ("enable_gadget", VBool false) ].

(** The example schema with the version whose character is the quote. *)
Definition quote_schema : dict :=
  [ ("_version", VInt 34); ("_comment", VStr "x");
    ("enable_widget", VBool true); ("enable_gadget", VBool false) ].

(** The example schema with the version whose character is the letter A. *)
Definition letter_schema : dict :=
  [ ("_version", VInt 65); ("_comment", VStr "x");
    ("enable_widget", VBool true); ("enable_gadget", VBool false) ].

(** A document with no fuses. *)
Definition empty_schema : dict :=
  [ ("_version", VInt 3); ("_comment", VStr "x") ].

(** The example schema without its comment. *)
Definition uncommented_schema : dict :=
  [ ("_version", VInt 3);
    ("enable_widget", VBool true); ("enable_gadget", VBool false) ].

(** A file system with no files in which exactly [paths] can be written. *)
Definition rw (paths : list string) : filesystem :=
  mk_fs (fun _ => None) (fun p => existsb (String.eqb p) paths).

(** Checks used to place the first occurrence of a pattern.

    [clash old u]: [old] and [u] differ at some position both have. *)
Fixpoint clash (old u : string) : bool :=
  match old, u with
  | String a o, String b v => negb (Ascii.eqb a b) || clash o v
  | _, _ => false
  end.

(** [absent old pre nxt]: no occurrence of [old] in [pre ++ nxt] starts
    inside [pre]. *)
Fixpoint absent (old pre nxt : string) : bool :=
  match pre with
  | EmptyString => true
  | String _ p => negb (prefix old (pre ++ nxt)) && absent old p nxt
  end.

(** [clear_of old pre la]: every suffix of [pre], continued by [la],
    clashes with [old]. *)
Fixpoint clear_of (old pre la : string) : bool :=
  match pre with
  | EmptyString => true
  | String _ p => clash old (pre ++ la) && clear_of old p la
  end.

(** [avoids a s]: the character [a] is not in [s]. *)
Fixpoint avoids (a : ascii) (s : string) : bool :=
  match s with
  | EmptyString => true
  | String c s' => negb (Ascii.eqb c a) && avoids a s'
  end.

(** [titled previous_is_cased s]: every lower-case letter of [s] follows a
    cased character. *)
Fixpoint titled (previous_is_cased : bool) (s : string) : bool :=
  match s with
  | EmptyString => true
  | String c s' =>
      (negb (is_lower c) || previous_is_cased) && titled (is_cased c) s'
  end.

(** [solid s]: [s] is not empty and does not end in white space. *)
Definition solid (s : string) : Prop := rstrip s = s /\ s <> EmptyString.

Fixpoint lower_all (s : string) : string :=
  match s with
  | EmptyString => EmptyString
  | String c s' => String (to_lower c) (lower_all s')
  end.

(** Title case of one word in the words of the specification: the first
    letter in upper case, the others in lower case.  To be compared with
    [title]. *)
Definition capitalize (word : string) : string :=
  match word with
  | EmptyString => EmptyString
  | String c s' => String (to_upper c) (lower_all s')
  end.

Fixpoint all_letters (s : string) : bool :=
  match s with
  | EmptyString => true
  | String c s' => is_cased c && all_letters s'
  end.

(** ** The command line *)

(** How a run started from a command line ends: as the script body does,
    or with the [IndexError] of a missing [sys.argv] entry. *)
Inductive outcome : Type :=
| Done (r : result unit)
| IndexError.

(** Lines 51 to 82 with [sys.argv] as a list, the script name first:
    [sys.argv[1]] is read when the first file is opened, [sys.argv[2]]
    when the second is, after the first has been written and closed. *)
Definition script (fuse_defaults : dict) (argv : list string)
  (fs : filesystem) : filesystem * outcome :=
  match render fuse_defaults with
  | Raise e => (fs, Done (Raise e))
  | Ok (header, impl) =>
      match nth_error argv 1 with
      | None => (fs, IndexError)
      | Some path1 =>
          match write_file path1 header fs with
          | (fs1, Raise e) => (fs1, Done (Raise e))
          | (fs1, Ok _) =>
              match nth_error argv 2 with
              | None => (fs1, IndexError)
              | Some path2 =>
                  (fst (write_file path2 impl fs1),
                   Done (snd (write_file path2 impl fs1)))
              end
          end
      end
  end.

(** ** Character classes of identifiers *)

Definition is_digit (c : ascii) : bool :=
  let n := nat_of_ascii c in ((48 <=? n) && (n <=? 57))%nat.

Definition is_alnum (c : ascii) : bool := is_cased c || is_digit c.

(** A character of a snake-case identifier: a letter, a digit or an
    underscore. *)
Definition is_ident_char (c : ascii) : bool := is_alnum c || Ascii.eqb c "_".

Fixpoint all_chars (p : ascii -> bool) (s : string) : bool :=
  match s with
  | EmptyString => true
  | String c s' => p c && all_chars p s'
  end.

(** The truth values of the defaults of a list of fuses. *)
Definition states (fuses : dict) : list bool :=
  map (fun kv => truthy (snd kv)) fuses.

(** ** Strings: concatenation, prefixes, replacement *)

Section Strings.

Lemma append_assoc (a b c : string) : (a ++ b) ++ c = a ++ (b ++ c).
Proof. induction a as [|x a IH]; simpl; [reflexivity | now rewrite IH]. Qed.

Lemma append_nil_r (a : string) : a ++ EmptyString = a.
Proof. induction a as [|x a IH]; simpl; [reflexivity | now rewrite IH]. Qed.

Lemma get_append_r (a b : string) (n : nat) :
  get (String.length a + n) (a ++ b) = get n b.
Proof. induction a as [|x a IH]; simpl; [reflexivity | exact IH]. Qed.

Lemma substring_append_r (a b : string) :
  substring (String.length a) (String.length (a ++ b) - String.length a)
    (a ++ b) = b.
Proof.
  induction a as [|x a IH]; simpl.
  - rewrite Nat.sub_0_r. induction b as [|y b IHb]; simpl;
      [reflexivity | now rewrite IHb].
  - exact IH.
Qed.

Lemma prefix_append (old post : string) : prefix old (old ++ post) = true.
Proof.
  induction old as [|a o IH]; simpl.
  - now destruct post.
  - destruct (ascii_dec a a) as [_|n]; [exact IH | now elim n].
Qed.

Lemma clash_prefix (old u x : string) :
  clash old u = true -> prefix old (u ++ x) = false.
Proof.
  revert u. induction old as [|a o IH]; intros [|b v] H; simpl in *;
    try discriminate.
  destruct (ascii_dec a b) as [->|n].
  - rewrite Ascii.eqb_refl in H. simpl in H. now apply IH.
  - reflexivity.
Qed.

Lemma clear_of_absent (old pre la x : string) :
  clear_of old pre la = true -> absent old pre (la ++ x) = true.
Proof.
  induction pre as [|c p IH]; [reflexivity|].
  cbn [absent clear_of]. intros H. apply andb_true_iff in H as [H1 H2].
  rewrite <- append_assoc, (clash_prefix _ _ x H1).
  cbn [negb andb]. now apply IH.
Qed.

Lemma clear_absent (old pre x : string) :
  clear_of old pre EmptyString = true -> absent old pre x = true.
Proof. intros H. exact (clear_of_absent old pre EmptyString x H). Qed.

Lemma absent_app (old p q nxt : string) :
  absent old p (q ++ nxt) = true -> absent old q nxt = true ->
  absent old (p ++ q) nxt = true.
Proof.
  intros Hp Hq. induction p as [|c p IH]; [exact Hq|].
  cbn [absent] in Hp. apply andb_true_iff in Hp as [H1 H2].
  change ((String c p ++ q)) with (String c (p ++ q)). cbn [absent].
  change (String c (p ++ q)) with (String c p ++ q).
  rewrite append_assoc, H1. cbn [andb]. now apply IH.
Qed.

Lemma avoids_absent (a : ascii) (o q nxt : string) :
  avoids a q = true -> absent (String a o) q nxt = true.
Proof.
  induction q as [|c q IH]; simpl; [reflexivity|].
  intros H. apply andb_true_iff in H as [H1 H2].
  destruct (ascii_dec a c) as [->|n].
  - now rewrite Ascii.eqb_refl in H1.
  - simpl. now apply IH.
Qed.

Lemma prefix_avoids_head (a b : ascii) (o q t : string) :
  avoids a q = true -> a <> b ->
  prefix (String a o) (q ++ String b t) = false.
Proof.
  intros H n. destruct q as [|c q]; simpl in *.
  - now destruct (ascii_dec a b).
  - apply andb_true_iff in H as [H1 _].
    destruct (ascii_dec a c) as [->|]; [|reflexivity].
    now rewrite Ascii.eqb_refl in H1.
Qed.

Lemma replace_from_skip (old new u s : string) :
  replace_from old new (String.length u) (u ++ s) = replace_from old new 0 s.
Proof. induction u as [|c u IH]; simpl; [reflexivity | exact IH]. Qed.

Lemma replace_from_occurrence (a : ascii) (o new post : string) :
  replace_from (String a o) new 0 (String a o ++ post)
  = new ++ replace_from (String a o) new 0 post.
Proof.
  change (String a o ++ post) with (String a (o ++ post)).
  cbn [replace_from].
  change (String a (o ++ post)) with (String a o ++ post).
  rewrite prefix_append.
  replace (String.length (String a o) - 1) with (String.length o)
    by (cbn [String.length]; lia).
  now rewrite replace_from_skip.
Qed.

Lemma replace_from_absent (old new pre nxt : string) :
  absent old pre nxt = true ->
  replace_from old new 0 (pre ++ nxt) = pre ++ replace_from old new 0 nxt.
Proof.
  induction pre as [|c p IH]; [reflexivity|].
  cbn [absent]. intros H. apply andb_true_iff in H as [H1 H2].
  apply negb_true_iff in H1.
  change (String c p ++ nxt) with (String c (p ++ nxt)) in *.
  cbn [replace_from]. rewrite H1. cbn [append]. now rewrite IH.
Qed.

(** The pattern occurs once, after [pre]: it alone is replaced. *)
Lemma replace_once (a : ascii) (o new pre post : string) :
  absent (String a o) pre (String a o ++ post) = true ->
  absent (String a o) post EmptyString = true ->
  replace (String a o) new (pre ++ String a o ++ post) = pre ++ new ++ post.
Proof.
  intros Hpre Hpost. unfold replace.
  rewrite (replace_from_absent _ _ _ _ Hpre), replace_from_occurrence.
  rewrite <- (append_nil_r post) at 1.
  rewrite (replace_from_absent _ _ _ _ Hpost). cbn [replace_from].
  now rewrite append_nil_r.
Qed.

End Strings.

(** ** Strings: stripping *)

Section Strip.

Lemma rstrip_append (a t : string) :
  rstrip (a ++ t)
  = match rstrip t with
    | EmptyString => rstrip a
    | String _ _ => a ++ rstrip t
    end.
Proof.
  induction a as [|c a IH]; cbn [append rstrip].
  - now destruct (rstrip t).
  - rewrite IH. destruct (rstrip t) as [|x r]; [reflexivity|].
    now destruct a.
Qed.

Lemma solid_append (a t : string) : solid t -> solid (a ++ t).
Proof.
  intros [H1 H2]. split.
  - rewrite rstrip_append, H1. destruct t; [now elim H2 | reflexivity].
  - destruct a; [exact H2 | discriminate].
Qed.

Lemma join_cons (x : string) (xs : list string) :
  join (x :: xs) = x ++ join xs.
Proof.
  unfold join. destruct xs as [|y ys]; cbn [String.concat].
  - now rewrite append_nil_r.
  - reflexivity.
Qed.

Lemma concat_solid (sep b : string) (bs : list string) :
  b <> EmptyString -> String.concat sep (b :: bs) <> EmptyString.
Proof.
  intros H. destruct bs; cbn [String.concat]; [exact H|].
  destruct b; [now elim H | discriminate].
Qed.

(** Stripping the right end of a run of blocks, each closed by a line
    break and opened by [p], leaves the blocks separated by a line break
    and [p]. *)
Lemma rstrip_blocks (p : string) (bs : list string) : forall b,
  solid b -> Forall solid bs ->
  rstrip (b ++ nl ++ join (map (fun x => p ++ x ++ nl) bs))
  = String.concat (nl ++ p) (b :: bs).
Proof.
  induction bs as [|b' bs IH]; intros b Hb Hbs.
  - cbn [map String.concat]. rewrite rstrip_append.
    change (rstrip (nl ++ join [])) with EmptyString. apply Hb.
  - inversion Hbs as [|? ? Hb' Hbs']; subst.
    cbn [map]. rewrite join_cons.
    replace (b ++ nl ++ (p ++ b' ++ nl) ++ join (map (fun x => p ++ x ++ nl) bs))
      with ((b ++ nl ++ p) ++ (b' ++ nl ++ join (map (fun x => p ++ x ++ nl) bs)))
      by now rewrite !append_assoc.
    rewrite rstrip_append, (IH b' Hb' Hbs').
    pose proof (concat_solid (nl ++ p) b' bs (proj2 Hb')) as Hne.
    destruct (String.concat (nl ++ p) (b' :: bs)) as [|x r] eqn:E;
      [now elim Hne|].
    cbn [String.concat]. rewrite <- E. now rewrite !append_assoc.
Qed.

(** Stripping both ends of such a run. *)
Lemma strip_blocks (p : string) (bs : list string) :
  lstrip p = EmptyString ->
  Forall (fun b => solid b /\ lstrip b = b) bs ->
  strip (join (map (fun x => p ++ x ++ nl) bs)) = String.concat (nl ++ p) bs.
Proof.
  intros Hp Hbs. destruct bs as [|b bs]; [reflexivity|].
  inversion Hbs as [|? ? [Hb Hl] Hbs']; subst.
  cbn [map]. rewrite join_cons, !append_assoc. unfold strip.
  assert (L : forall t, lstrip (p ++ b ++ t) = b ++ t).
  { intros t. clear - Hp Hl Hb. induction p as [|c q IH].
    - cbn [append]. destruct b as [|x b]; [now elim (proj2 Hb)|].
      cbn [append lstrip] in *. destruct (is_space x); [|reflexivity].
      exfalso. assert (String.length (lstrip b) <= String.length b) as Hlen.
      { clear. induction b as [|y b IH]; cbn [lstrip]; [lia|].
        destruct (is_space y); cbn [String.length]; lia. }
      rewrite Hl in Hlen. cbn [String.length] in Hlen. lia.
    - cbn [append lstrip] in *. destruct (is_space c); [|discriminate].
      now apply IH. }
  rewrite L. apply rstrip_blocks; [exact Hb|].
  eapply Forall_impl; [|exact Hbs']. now intros ? [? _].
Qed.

End Strip.

(** ** Accessor names and the two getter literals *)

Section Getters.

Ltac by_cases c := destruct c as [[] [] [] [] [] [] [] []]; reflexivity.

Lemma is_lower_to_upper (c : ascii) : is_lower (to_upper c) = false.
Proof. by_cases c. Qed.

Lemma is_cased_to_upper (c : ascii) : is_cased (to_upper c) = is_cased c.
Proof. by_cases c. Qed.

Lemma is_cased_to_lower (c : ascii) : is_cased (to_lower c) = is_cased c.
Proof. by_cases c. Qed.

Lemma titled_title_from (s : string) : forall p,
  titled p (title_from p s) = true.
Proof.
  induction s as [|c s IH]; intros p; [reflexivity|].
  cbn [title_from titled]. destruct p.
  - rewrite orb_true_r, is_cased_to_lower. apply IH.
  - rewrite is_lower_to_upper, is_cased_to_upper. apply IH.
Qed.

Lemma titled_weaken (p : bool) (s : string) :
  titled false s = true -> titled p s = true.
Proof.
  destruct s as [|c s]; [reflexivity|]. cbn [titled].
  rewrite orb_false_r. intros H. apply andb_true_iff in H as [H1 H2].
  now rewrite H1, H2.
Qed.

Lemma titled_append (a b : string) : forall p,
  titled p a = true -> titled false b = true -> titled p (a ++ b) = true.
Proof.
  induction a as [|c a IH]; intros p Ha Hb.
  - now apply titled_weaken.
  - cbn [append titled] in *. apply andb_true_iff in Ha as [H1 H2].
    rewrite H1. now apply IH.
Qed.

Lemma titled_accessor_name (fuse : string) :
  titled false (accessor_name fuse) = true.
Proof.
  unfold accessor_name.
  induction (split "_" fuse) as [|w ws IH]; [reflexivity|].
  cbn [map]. rewrite join_cons. apply titled_append; [|exact IH].
  apply titled_title_from.
Qed.

(** A titled text holds no [{index}], whatever follows it, unless what
    follows starts with the letter i. *)
Lemma titled_absent_index (e : ascii) (t s : string) : forall p,
  e <> "i"%char -> titled p s = true ->
  absent "{index}" s (String e t) = true.
Proof.
  induction s as [|c s IH]; intros p He H; [reflexivity|].
  cbn [titled] in H. apply andb_true_iff in H as [_ H].
  cbn [absent]. rewrite (IH _ He H), andb_true_r.
  apply negb_true_iff. cbn [append prefix].
  destruct (ascii_dec "{" c) as [<-|]; [|reflexivity].
  destruct s as [|c2 s]; cbn [append prefix].
  - destruct (ascii_dec "i" e) as [E|]; [now elim He | reflexivity].
  - destruct (ascii_dec "i" c2) as [<-|]; [discriminate H | reflexivity].
Qed.

Lemma getter_h_replace (fuse : string) :
  replace "{name}" (accessor_name fuse) GETTER_H = declaration fuse ++ nl.
Proof. unfold declaration, accessor. rewrite !append_assoc. reflexivity. Qed.

Lemma getter_cc_replace (fuse : string) (i : nat) :
  replace "{index}" (str i) (replace "{name}" (accessor_name fuse) GETTER_CC)
  = nl ++ definition fuse i ++ nl.
Proof.
  set (A := nl ++ "__attribute__((__visibility__(" ++ dq ++ "default" ++ dq
            ++ "))) bool Is").
  set (B := "Enabled() {" ++ nl ++ "  return kFuseWire[").
  set (C := "] == '1';" ++ nl ++ "}" ++ nl).
  assert (E1 : replace "{name}" (accessor_name fuse) GETTER_CC
               = (A ++ accessor_name fuse ++ B) ++ "{index}" ++ C).
  { rewrite !append_assoc. reflexivity. }
  rewrite E1, replace_once.
  - unfold definition, accessor, A, B, C. rewrite !append_assoc. reflexivity.
  - apply absent_app; [now apply clear_absent|].
    apply absent_app; [|now apply (clear_of_absent _ B "{index}" C)].
    apply (titled_absent_index _ _ _ false); [discriminate|].
    apply titled_accessor_name.
  - reflexivity.
Qed.

Lemma solid_declaration (fuse : string) :
  solid (declaration fuse) /\ lstrip (declaration fuse) = declaration fuse.
Proof.
  split; [|reflexivity]. unfold declaration, accessor.
  rewrite <- !append_assoc. apply solid_append. now split.
Qed.

Lemma solid_definition (fuse : string) (i : nat) :
  solid (definition fuse i) /\ lstrip (definition fuse i) = definition fuse i.
Proof.
  split; [|reflexivity]. unfold definition.
  rewrite <- !append_assoc. apply solid_append. now split.
Qed.

Lemma solid_definitions (fuses : list string) : forall i,
  Forall (fun b => solid b /\ lstrip b = b) (definitions i fuses).
Proof.
  induction fuses as [|f r IH]; intros i; cbn [definitions]; constructor.
  - apply solid_definition.
  - apply IH.
Qed.

End Getters.

(** ** Dictionaries *)

Section Dict.

Lemma dict_get_app_here (k : string) (v : value) (l : dict) :
  forall pre : dict,
  distinct_keys (pre ++ (k, v) :: l)%list = true ->
  dict_get k (pre ++ (k, v) :: l)%list = Some v.
Proof.
  induction pre as [|[k0 v0] pre IH]; cbn [List.app dict_get distinct_keys].
  - now rewrite String.eqb_refl.
  - destruct (dict_get k0 (pre ++ (k, v) :: l)%list) eqn:E; [discriminate|].
    intros H. destruct (String.eqb_spec k0 k) as [->|_]; [|now apply IH].
    rewrite (IH H) in E. discriminate.
Qed.

Lemma dict_get_without (k k2 : string) (d : dict) :
  k2 <> k -> dict_get k2 (without k d) = dict_get k2 d.
Proof.
  intros Hne. induction d as [|[k0 v0] d IH]; [reflexivity|].
  cbn [without filter fst dict_get].
  destruct (String.eqb_spec k0 k) as [->|_]; cbn [negb dict_get].
  - destruct (String.eqb_spec k k2) as [->|_]; [now elim Hne | exact IH].
  - destruct (k0 =? k2); [reflexivity | exact IH].
Qed.

Lemma without_absent (k : string) (d : dict) :
  dict_get k d = None -> without k d = d.
Proof.
  induction d as [|[k0 v0] d IH]; [reflexivity|].
  cbn [without filter fst dict_get].
  destruct (k0 =? k); [discriminate|]. cbn [negb]. intros H.
  f_equal. now apply IH.
Qed.

Lemma distinct_without (k : string) (d : dict) :
  distinct_keys d = true -> distinct_keys (without k d) = true.
Proof.
  induction d as [|[k0 v0] d IH]; [reflexivity|].
  cbn [without filter fst distinct_keys].
  destruct (dict_get k0 d) eqn:E; [discriminate|]. intros H.
  destruct (String.eqb_spec k0 k) as [->|n]; cbn [negb distinct_keys];
    [now apply IH|].
  fold (without k d). rewrite dict_get_without, E by exact n. now apply IH.
Qed.

(** Deleting a key of a dictionary leaves the other entries, in order. *)
Lemma delitem_without (k : string) (d : dict) :
  distinct_keys d = true -> dict_get k d <> None ->
  delitem k d = Ok (without k d).
Proof.
  induction d as [|[k0 v0] d IH]; [now intros _ H|].
  cbn [distinct_keys dict_get delitem without filter fst].
  destruct (dict_get k0 d) eqn:E; [discriminate|]. intros Hd Hk.
  destruct (String.eqb_spec k0 k) as [->|n]; cbn [negb].
  - fold (without k d). now rewrite without_absent.
  - fold (without k d). now rewrite IH.
Qed.

Lemma delitem_missing (k : string) (d : dict) :
  dict_get k d = None -> delitem k d = Raise (KeyError k).
Proof.
  induction d as [|[k0 v0] d IH]; [reflexivity|].
  cbn [dict_get delitem]. destruct (k0 =? k); [discriminate|].
  intros H. now rewrite IH.
Qed.

(** Deleting another key first does not make a key appear or vanish. *)
Lemma delitem_keeps (k k2 : string) (d d' : dict) :
  k2 <> k -> delitem k d = Ok d' -> dict_get k2 d' = dict_get k2 d.
Proof.
  intros Hne. revert d'. induction d as [|[k0 v0] d IH]; intros d';
    cbn [delitem dict_get]; [discriminate|].
  destruct (String.eqb_spec k0 k) as [->|n].
  - intros [= <-]. destruct (String.eqb_spec k k2) as [->|]; [now elim Hne|].
    reflexivity.
  - destruct (delitem k d) as [d''|e]; cbn [bind]; [|discriminate].
    intros [= <-]. cbn [dict_get]. destruct (k0 =? k2); [reflexivity|].
    now apply IH.
Qed.

Lemma delitem_present (k : string) (d : dict) :
  dict_get k d <> None -> exists d', delitem k d = Ok d'.
Proof.
  induction d as [|[k0 v0] d IH]; [now intros H|].
  cbn [dict_get delitem]. destruct (k0 =? k); [now eexists|].
  intros H. destruct (IH H) as [d' ->]. now eexists.
Qed.

End Dict.

(** ** The loop and the two renderings *)

Section Rendering.

Lemma bit_append (s : string) (v : value) (rest : dict) :
  (s ++ (if truthy v then "1" else "0")) ++ bitstring rest
  = s ++ bitstring ((EmptyString, v) :: rest).
Proof.
  rewrite append_assoc. cbn [bitstring]. unfold bit.
  now destruct (truthy v).
Qed.

(** The loop, over the keys of a tail [l] of the dictionary it reads. *)
Lemma loop_items (d : dict) (Hd : distinct_keys d = true) (l : dict) :
  forall (pre : dict) (a : acc),
  d = (pre ++ l)%list ->
  loop d (keys l) a
  = Ok (mk_acc
          (index a + List.length l)
          (initial_config a ++ bitstring l)
          (getters_h a
           ++ join (map (fun x => EmptyString ++ x ++ nl)
                        (map declaration (keys l))))
          (getters_cc a
           ++ join (map (fun x => nl ++ x ++ nl)
                        (definitions (index a + 1) (keys l))))).
Proof.
  induction l as [|[k v] l IH]; intros pre a E.
  - cbn [keys map loop List.length bitstring definitions].
    change (join []) with EmptyString.
    rewrite !append_nil_r, Nat.add_0_r. now destruct a.
  - cbn [keys map fst loop]. unfold loop_body, getitem.
    rewrite E at 1. rewrite dict_get_app_here by now rewrite <- E.
    cbn [bind]. rewrite getter_h_replace, getter_cc_replace.
    fold (keys l).
    rewrite (IH (pre ++ [(k, v)])%list) by now rewrite <- app_assoc.
    cbn [index initial_config getters_h getters_cc List.length definitions
         map].
    rewrite !join_cons, bit_append. cbn [bitstring append].
    rewrite !append_assoc. cbn [append].
    replace (index a + 1 + 1) with (S (index a + 1)) by lia.
    replace (index a + 1 + List.length l) with (index a + S (List.length l))
      by lia.
    reflexivity.
Qed.

Lemma header_replace (g : string) :
  replace "{getters}" g TEMPLATE_H = H_PRE ++ g ++ H_POST.
Proof. reflexivity. Qed.

Lemma avoids_bitstring (a : ascii) (fuses : dict) :
  a <> "0"%char -> a <> "1"%char -> avoids a (bitstring fuses) = true.
Proof.
  intros H0 H1. induction fuses as [|[k v] r IH]; [reflexivity|].
  cbn [bitstring avoids]. rewrite IH, andb_true_r. apply negb_true_iff.
  unfold bit. destruct (truthy v); apply Ascii.eqb_neq; congruence.
Qed.

(** The four substitutions into [TEMPLATE_CC]. *)
Lemma impl_replace (c : ascii) (fuses : dict) (g : string) :
  replace "{getters}" g
    (replace "{initial_config}" (bitstring fuses)
       (replace "{fuse_version}" (String c EmptyString)
          (replace "{sentinel}" SENTINEL TEMPLATE_CC)))
  = CC_PRE ++ (SENTINEL ++ String c EmptyString ++ bitstring fuses)
    ++ CC_MID ++ g ++ CC_POST.
Proof.
  set (P := CC_PRE ++ SENTINEL).
  set (one := String c EmptyString).
  assert (E1 : replace "{fuse_version}" one
                 (replace "{sentinel}" SENTINEL TEMPLATE_CC)
               = (P ++ one) ++ "{initial_config}"
                 ++ (CC_MID ++ "{getters}" ++ CC_POST)) by reflexivity.
  rewrite E1, replace_once.
  - replace ((P ++ one) ++ bitstring fuses ++ CC_MID ++ "{getters}" ++ CC_POST)
      with ((P ++ one ++ bitstring fuses ++ CC_MID) ++ "{getters}" ++ CC_POST)
      by now rewrite !append_assoc.
    rewrite replace_once.
    + unfold P. now rewrite !append_assoc.
    + apply absent_app; [now apply clear_absent|].
      apply absent_app; [|apply absent_app].
      * unfold one. cbn [absent append]. rewrite andb_true_r.
        apply negb_true_iff. cbn [prefix].
        destruct (ascii_dec "{" c); [|reflexivity].
        rewrite append_assoc.
        apply prefix_avoids_head; [|discriminate].
        now apply avoids_bitstring.
      * apply avoids_absent. now apply avoids_bitstring.
      * now apply avoids_absent.
    + reflexivity.
  - apply absent_app; [now apply clear_absent|].
    unfold one. cbn [absent append]. rewrite andb_true_r.
    apply negb_true_iff. cbn [prefix].
    destruct (ascii_dec "{" c); reflexivity.
  - reflexivity.
Qed.

(** Lines 55 to 76 on a version that fits one byte. *)
Lemma generate_valid (version : nat) (fuses : dict) :
  distinct_keys fuses = true -> version < 256 ->
  generate (VInt (Z.of_nat version)) fuses
  = Ok (header_of (keys fuses), impl_of version fuses).
Proof.
  intros Hd Hv. unfold generate. cbn [ge_pow_2_8 bind].
  replace (256 <=? Z.of_nat version)%Z with false
    by (symmetry; apply Z.leb_gt; lia).
  rewrite (loop_items fuses Hd fuses [] _ eq_refl).
  cbn [bind index initial_config getters_h getters_cc append chr_value].
  replace (Z.of_nat version <? 0)%Z with false
    by (symmetry; apply Z.ltb_ge; lia).
  cbn [bind]. rewrite Nat2Z.id, header_replace. unfold chr.
  rewrite impl_replace.
  rewrite (strip_blocks EmptyString), (strip_blocks nl).
  - unfold header_of, impl_of, wire, chr. now rewrite append_nil_r.
  - reflexivity.
  - apply solid_definitions.
  - reflexivity.
  - clear. induction (keys fuses) as [|k r IH]; constructor;
      [apply solid_declaration | exact IH].
Qed.

(** Lines 51 to 53 on a document that has both metadata keys. *)
Lemma render_metadata (doc : dict) (fuse_version : value) :
  distinct_keys doc = true ->
  dict_get "_version" doc = Some fuse_version ->
  dict_get "_comment" doc <> None ->
  render doc = generate fuse_version (fuse_items doc).
Proof.
  intros Hd Hv Hc. unfold render, getitem, fuse_items. rewrite Hv.
  cbn [bind]. rewrite delitem_without; [|exact Hd|now rewrite Hv].
  cbn [bind]. rewrite delitem_without; [reflexivity| |].
  - now apply distinct_without.
  - now rewrite dict_get_without.
Qed.

Lemma distinct_fuse_items (doc : dict) :
  distinct_keys doc = true -> distinct_keys (fuse_items doc) = true.
Proof. intros H. unfold fuse_items. now do 2 apply distinct_without. Qed.

(** The script's two texts for a valid schema. *)
Lemma render_valid (doc : dict) (version : nat) :
  valid_schema doc version ->
  render doc
  = Ok (header_of (keys (fuse_items doc)), impl_of version (fuse_items doc)).
Proof.
  intros (Hd & Hv & Hlt & Hc).
  rewrite (render_metadata doc _ Hd Hv Hc).
  apply generate_valid; [now apply distinct_fuse_items | exact Hlt].
Qed.

End Rendering.

(** ** The script as a whole *)

Section Script.

Lemma write_file_ok (path data : string) (fs : filesystem) :
  writable fs path = true ->
  write_file path data fs
  = (mk_fs (fun p => if p =? path then Some data else content fs p)
           (writable fs), Ok tt).
Proof. intros H. unfold write_file. now rewrite H. Qed.

Lemma write_file_denied (path data : string) (fs : filesystem) :
  writable fs path = false ->
  write_file path data fs = (fs, Raise (OSError path)).
Proof. intros H. unfold write_file. now rewrite H. Qed.

(** A run whose two paths can be written. *)
Lemma main_writes (doc : dict) (header impl argv1 argv2 : string)
  (fs : filesystem) :
  render doc = Ok (header, impl) ->
  writable fs argv1 = true -> writable fs argv2 = true ->
  main doc argv1 argv2 fs
  = (mk_fs (fun p => if p =? argv2 then Some impl
                     else if p =? argv1 then Some header
                     else content fs p)
           (writable fs), Ok tt).
Proof.
  intros Hr H1 H2. unfold main. rewrite Hr, (write_file_ok _ _ _ H1).
  now rewrite write_file_ok.
Qed.

Lemma main_raises (doc : dict) (e : exn) (argv1 argv2 : string)
  (fs : filesystem) :
  render doc = Raise e -> main doc argv1 argv2 fs = (fs, Raise e).
Proof. intros Hr. unfold main. now rewrite Hr. Qed.

Lemma get_bitstring (fuses : dict) : forall i k v,
  nth_error fuses i = Some (k, v) -> get i (bitstring fuses) = Some (bit v).
Proof.
  induction fuses as [|[k0 v0] r IH]; intros [|i] k v; cbn; try discriminate.
  - now intros [= _ ->].
  - apply IH.
Qed.

Lemma length_bitstring (fuses : dict) :
  String.length (bitstring fuses) = List.length fuses.
Proof. induction fuses as [|[k v] r IH]; cbn; [reflexivity | now rewrite IH]. Qed.

Lemma nth_definitions (fuses : dict) : forall off i k v,
  nth_error fuses i = Some (k, v) ->
  nth_error (definitions off (keys fuses)) i = Some (definition k (off + i)).
Proof.
  induction fuses as [|[k0 v0] r IH]; intros off [|i] k v;
    cbn [keys map fst definitions nth_error]; try discriminate.
  - intros [= -> _]. now rewrite Nat.add_0_r.
  - intros H. fold (keys r). rewrite (IH (S off) i k v H).
    do 2 f_equal. lia.
Qed.

Lemma title_from_letters (s : string) :
  all_letters s = true -> title_from true s = lower_all s.
Proof.
  induction s as [|c s IH]; [reflexivity|]. cbn [all_letters].
  intros H. apply andb_true_iff in H as [H1 H2].
  cbn [title_from lower_all]. now rewrite H1, IH.
Qed.

Lemma title_capitalize (word : string) :
  all_letters word = true -> title word = capitalize word.
Proof.
  destruct word as [|c s]; [reflexivity|]. cbn [all_letters].
  intros H. apply andb_true_iff in H as [H1 H2].
  unfold title. cbn [title_from capitalize].
  now rewrite H1, title_from_letters.
Qed.

Lemma string_escape_literal (s : string) :
  all_chars literal_char s = true -> string_escape s = s.
Proof.
  induction s as [|c s IH]; [reflexivity|]. cbn [all_chars string_escape].
  intros H. apply andb_true_iff in H as [H1 H2].
  unfold escape_char. now rewrite H1, (IH H2).
Qed.

Lemma literal_bitstring (fuses : dict) :
  all_chars literal_char (bitstring fuses) = true.
Proof.
  induction fuses as [|[k v] r IH]; [reflexivity|].
  cbn [bitstring all_chars]. rewrite IH. unfold bit.
  now destruct (truthy v).
Qed.

Lemma literal_chars_append (a b : string) :
  all_chars literal_char a = true -> all_chars literal_char b = true ->
  all_chars literal_char (a ++ b) = true.
Proof.
  intros Ha Hb. induction a as [|c a IH]; [exact Hb|].
  cbn [append all_chars] in *. apply andb_true_iff in Ha as [H1 H2].
  now rewrite H1, IH.
Qed.

Lemma literal_char_of_nat (n : nat) :
  32 <= n <= 126 -> n <> 34 -> n <> 92 ->
  literal_char (ascii_of_nat n) = true.
Proof.
  intros Hr Hq Hb. unfold literal_char.
  assert (Hlt : n < 256) by lia.
  rewrite (nat_ascii_embedding n Hlt).
  assert (E : forall m, m < 256 -> n <> m ->
              Ascii.eqb (ascii_of_nat n) (ascii_of_nat m) = false).
  { intros m Hm Hne. apply Ascii.eqb_neq. intros Heq. apply Hne.
    rewrite <- (nat_ascii_embedding n Hlt), <- (nat_ascii_embedding m Hm).
    now rewrite Heq. }
  change "034"%char with (ascii_of_nat 34).
  change "092"%char with (ascii_of_nat 92).
  rewrite !E by (assumption || lia).
  replace (32 <=? n)%nat with true by (symmetry; apply Nat.leb_le; lia).
  now replace (n <=? 126)%nat with true by (symmetry; apply Nat.leb_le; lia).
Qed.

Lemma after_open_quote_impl (version : nat) (fuses : dict) :
  after_open_quote (impl_of version fuses)
  = wire version fuses ++ dq ++ (String ";" (nl ++ nl))
    ++ String.concat (nl ++ nl)
         (definitions (String.length SENTINEL + 1) (keys fuses))
    ++ CC_POST.
Proof.
  unfold after_open_quote, impl_of. rewrite substring_append_r.
  unfold CC_MID. now rewrite !append_assoc.
Qed.

Lemma dict_get_app_other (k k' : string) (v : value) (d : dict) :
  k <> k' -> dict_get k (d ++ [(k', v)])%list = dict_get k d.
Proof.
  intros Hne. induction d as [|[k0 v0] d IH]; cbn [List.app dict_get].
  - destruct (String.eqb_spec k' k); [now elim Hne | reflexivity].
  - now rewrite IH.
Qed.

Lemma delitem_app_other (k k' : string) (v : value) (d : dict) :
  k <> k' ->
  delitem k (d ++ [(k', v)])%list
  = (d' <- delitem k d ;; Ok (d' ++ [(k', v)])%list).
Proof.
  intros Hne. induction d as [|[k0 v0] d IH]; cbn [List.app delitem bind].
  - destruct (String.eqb_spec k' k); [now elim Hne | reflexivity].
  - destruct (k0 =? k); [reflexivity|]. rewrite IH.
    now destruct (delitem k d).
Qed.

Lemma delitem_app_last (k : string) (v : value) (d : dict) :
  dict_get k d = None -> delitem k (d ++ [(k, v)])%list = Ok d.
Proof.
  induction d as [|[k0 v0] d IH]; cbn [List.app delitem dict_get].
  - now rewrite String.eqb_refl.
  - destruct (k0 =? k); [discriminate|]. intros H. now rewrite IH.
Qed.

End Script.

(** ** Properties of the generated files *)

Ltac conjuncts := repeat match goal with |- _ /\ _ => split end.

Ltac by_evaluation :=
  unfold valid_schema; conjuncts; try reflexivity; try lia; try discriminate.

(** C1.  For a valid schema the definitions file holds, between the
    opening quote of [kFuseWire] and the closing quote, exactly the
    sentinel, then [chr(version)], then the bit string; the bit string has
    one character per fuse in insertion order, ['1'] for a default that is
    true and ['0'] for one that is false. *)
Theorem wire_is_sentinel_version_bits (doc : dict) (version : nat) :
  valid_schema doc version ->
  exists header getters : string,
    render doc
    = Ok (header,
          CC_PRE
          ++ (SENTINEL ++ chr version ++ bitstring (fuse_items doc))
          ++ CC_MID ++ getters ++ CC_POST)
    /\ String.length (bitstring (fuse_items doc))
       = List.length (fuse_items doc)
    /\ forall i k v,
         nth_error (fuse_items doc) i = Some (k, v) ->
         get i (bitstring (fuse_items doc))
         = Some (if truthy v then "1"%char else "0"%char).
Proof.
  intros Hvalid. do 2 eexists. split; [|split].
  - rewrite (render_valid doc version Hvalid). unfold impl_of, wire.
    reflexivity.
  - apply length_bitstring.
  - intros i k v H. rewrite (get_bitstring _ _ _ _ H). unfold bit.
    now destruct (truthy v).
Qed.

Lemma wire_is_sentinel_version_bits_witness :
  valid_schema example_schema 3
  /\ exists header getters : string,
       render example_schema
       = Ok (header,
             CC_PRE
             ++ (SENTINEL ++ chr 3 ++ bitstring (fuse_items example_schema))
             ++ CC_MID ++ getters ++ CC_POST)
       /\ String.length (bitstring (fuse_items example_schema))
          = List.length (fuse_items example_schema)
       /\ forall i k v,
            nth_error (fuse_items example_schema) i = Some (k, v) ->
            get i (bitstring (fuse_items example_schema))
            = Some (if truthy v then "1"%char else "0"%char).
Proof.
  split; [by_evaluation|].
  apply (wire_is_sentinel_version_bits example_schema 3). by_evaluation.
Defined.

(** C2.  For a valid schema with ASCII identifiers, the definitions file
    holds one accessor definition per fuse, in insertion order; the
    definition of the fuse at position [i] returns
    [kFuseWire[len(SENTINEL) + 1 + i] == '1'], and the wire holds that
    fuse's bit at that offset. *)
Theorem accessor_reads_its_offset (doc : dict) (version : nat) :
  valid_schema doc version ->
  forallb ascii7 (keys (fuse_items doc)) = true ->
  exists header : string,
    render doc = Ok (header, impl_of version (fuse_items doc))
    /\ forall i k v,
         nth_error (fuse_items doc) i = Some (k, v) ->
         nth_error
           (definitions (String.length SENTINEL + 1) (keys (fuse_items doc))) i
         = Some (definition k (String.length SENTINEL + 1 + i))
         /\ get (String.length SENTINEL + 1 + i)
                (wire version (fuse_items doc))
            = Some (bit v).
Proof.
  intros Hvalid _. eexists. split; [exact (render_valid doc version Hvalid)|].
  intros i k v H. split; [exact (nth_definitions _ _ _ _ _ H)|].
  unfold wire. rewrite <- Nat.add_assoc, get_append_r.
  change (get (1 + i) (chr version ++ bitstring (fuse_items doc)))
    with (get i (bitstring (fuse_items doc))).
  exact (get_bitstring _ _ _ _ H).
Qed.

Lemma accessor_reads_its_offset_witness :
  valid_schema example_schema 3
  /\ forallb ascii7 (keys (fuse_items example_schema)) = true
  /\ exists header : string,
       render example_schema
       = Ok (header, impl_of 3 (fuse_items example_schema))
       /\ forall i k v,
            nth_error (fuse_items example_schema) i = Some (k, v) ->
            nth_error
              (definitions (String.length SENTINEL + 1)
                 (keys (fuse_items example_schema))) i
            = Some (definition k (String.length SENTINEL + 1 + i))
            /\ get (String.length SENTINEL + 1 + i)
                   (wire 3 (fuse_items example_schema))
               = Some (bit v).
Proof.
  split; [by_evaluation|]. split; [reflexivity|].
  apply (accessor_reads_its_offset example_schema 3); by_evaluation.
Defined.

(** C3.  When the version is an integer of 256 or more, the script raises
    its exception about the version, which ends the run with a status
    other than zero, and leaves the file system as it was. *)
Theorem version_overflow_raises (doc : dict) (z : Z)
  (argv1 argv2 : string) (fs : filesystem) :
  dict_get "_version" doc = Some (VInt z) ->
  dict_get "_comment" doc <> None ->
  (256 <= z)%Z ->
  main doc argv1 argv2 fs
  = (fs, Raise (Exception "Fuse version can not exceed one byte in size"))
  /\ exit_status (snd (main doc argv1 argv2 fs)) <> 0.
Proof.
  intros Hv Hc Hz.
  enough (E : main doc argv1 argv2 fs
              = (fs, Raise (Exception
                              "Fuse version can not exceed one byte in size")))
    by (rewrite E; split; [reflexivity | discriminate]).
  apply main_raises. unfold render, getitem. rewrite Hv.
  cbn [bind].
  destruct (delitem_present "_version" doc) as [d1 E1]; [now rewrite Hv|].
  rewrite E1. cbn [bind].
  destruct (delitem_present "_comment" d1) as [d2 E2].
  { rewrite (delitem_keeps "_version" "_comment" doc d1); [exact Hc| |exact E1].
    discriminate. }
  rewrite E2. cbn [bind]. unfold generate. cbn [ge_pow_2_8 bind].
  now replace (256 <=? z)%Z with true by (symmetry; apply Z.leb_le; lia).
Qed.

Lemma version_overflow_raises_witness :
  dict_get "_version" overflow_schema = Some (VInt 256)
  /\ dict_get "_comment" overflow_schema <> None
  /\ (256 <= 256)%Z
  /\ main overflow_schema "fuses.h" "fuses.cc" (rw ["fuses.h"; "fuses.cc"])
     = (rw ["fuses.h"; "fuses.cc"],
        Raise (Exception "Fuse version can not exceed one byte in size")).
Proof.
  split; [reflexivity|]. split; [discriminate|]. split; [lia|].
  apply (version_overflow_raises overflow_schema 256); by_evaluation.
Defined.

(** C4, as stated: the sentinel has 33 characters.  It has 32. *)
Lemma sentinel_is_not_33_characters :
  Nat.eqb (String.length SENTINEL) 33 = false.
Proof. reflexivity. Qed.

(** C4, amended.  The sentinel at the start of the wire is a fixed string
    of 32 characters. *)
Theorem sentinel_has_32_characters :
  SENTINEL = "dL7pKGdnNz796PbbjQWNKmHXBZaB9tsX"
  /\ String.length SENTINEL = 32
  /\ forall version fuses,
       substring 0 32 (wire version fuses) = SENTINEL.
Proof. by_evaluation. Qed.

(** C5, as stated: for every version from 0 to 255 the wire is emitted
    string-escaped.  At version 34 the version character is a quote; the
    definitions file holds it as it is right after the sentinel, where the
    escaped wire has a backslash. *)
Lemma wire_is_not_escaped :
  valid_schema quote_schema 34
  /\ render quote_schema
     = Ok (header_of (keys (fuse_items quote_schema)),
           impl_of 34 (fuse_items quote_schema))
  /\ get (String.length SENTINEL)
         (after_open_quote (impl_of 34 (fuse_items quote_schema)))
     = Some "034"%char
  /\ get (String.length SENTINEL)
         (string_escape (wire 34 (fuse_items quote_schema)))
     = Some "092"%char
  /\ prefix (string_escape (wire 34 (fuse_items quote_schema)))
            (after_open_quote (impl_of 34 (fuse_items quote_schema)))
     = false.
Proof. by_evaluation. Qed.

(** C5, amended.  For a valid schema the sentinel, the version character
    and the bit string are emitted as they are, contiguously, between the
    opening quote of [kFuseWire] and a closing quote.  When the version is
    from 32 to 126 and neither 34 (quote) nor 92 (backslash), every
    character of the wire is one a string literal holds as it is, and the
    emitted text is the escaped wire. *)
Theorem wire_is_emitted_verbatim (doc : dict) (version : nat) :
  valid_schema doc version ->
  exists header impl rest : string,
    render doc = Ok (header, impl)
    /\ after_open_quote impl = wire version (fuse_items doc) ++ dq ++ rest
    /\ (32 <= version <= 126 -> version <> 34 -> version <> 92 ->
        all_chars literal_char (wire version (fuse_items doc)) = true
        /\ after_open_quote impl
           = string_escape (wire version (fuse_items doc)) ++ dq ++ rest).
Proof.
  intros Hvalid. do 3 eexists. split; [exact (render_valid _ _ Hvalid)|].
  split; [apply after_open_quote_impl|].
  intros Hr Hq Hb.
  assert (L : all_chars literal_char (wire version (fuse_items doc)) = true).
  { unfold wire. apply literal_chars_append; [reflexivity|].
    apply literal_chars_append; [|apply literal_bitstring].
    unfold chr. cbn [all_chars].
    now rewrite (literal_char_of_nat version Hr Hq Hb). }
  split; [exact L|].
  rewrite (string_escape_literal _ L). apply after_open_quote_impl.
Qed.

Lemma wire_is_emitted_verbatim_witness :
  valid_schema letter_schema 65
  /\ all_chars literal_char (wire 65 (fuse_items letter_schema)) = true
  /\ string_escape (wire 65 (fuse_items letter_schema))
     = wire 65 (fuse_items letter_schema).
Proof.
  split; [by_evaluation|].
  destruct (wire_is_emitted_verbatim letter_schema 65) as (h & i & r & _ & _ & E);
    [by_evaluation|].
  split; [apply E; lia | reflexivity].
Defined.

(** C6.  The accessor of a fuse is [Is], then the title-cased words that
    the underscores of the identifier separate, then [Enabled];
    [foo_bar_baz] gives [IsFooBarBazEnabled]; on a word made of letters,
    title case is an upper-case first letter and lower-case others.  For a
    valid schema with ASCII identifiers the declarations file holds one
    declaration of such an accessor per fuse, and the definitions file one
    definition per fuse, both in insertion order. *)
Theorem accessor_names (doc : dict) (version : nat) :
  valid_schema doc version ->
  forallb ascii7 (keys (fuse_items doc)) = true ->
  accessor "foo_bar_baz" = "IsFooBarBazEnabled"
  /\ (forall fuse,
        accessor fuse = "Is" ++ join (map title (split "_" fuse)) ++ "Enabled")
  /\ (forall word, all_letters word = true -> title word = capitalize word)
  /\ render doc
     = Ok (H_PRE
           ++ String.concat nl
                (map (fun fuse => "bool " ++ accessor fuse ++ "();")
                     (keys (fuse_items doc)))
           ++ H_POST,
           CC_PRE ++ wire version (fuse_items doc) ++ CC_MID
           ++ String.concat (nl ++ nl)
                (definitions (String.length SENTINEL + 1)
                   (keys (fuse_items doc)))
           ++ CC_POST)
  /\ forall i k v,
       nth_error (fuse_items doc) i = Some (k, v) ->
       exists offset,
         nth_error
           (definitions (String.length SENTINEL + 1) (keys (fuse_items doc))) i
         = Some ("__attribute__((__visibility__(" ++ dq ++ "default" ++ dq
                 ++ "))) bool " ++ accessor k ++ "() {" ++ nl
                 ++ "  return kFuseWire[" ++ str offset ++ "] == '1';"
                 ++ nl ++ "}").
Proof.
  intros Hvalid _. split; [reflexivity|]. split; [reflexivity|].
  split; [exact title_capitalize|].
  split; [exact (render_valid doc version Hvalid)|].
  intros i k v H. eexists. exact (nth_definitions _ _ _ _ _ H).
Qed.

Lemma accessor_names_witness :
  valid_schema example_schema 3
  /\ forallb ascii7 (keys (fuse_items example_schema)) = true
  /\ render example_schema
     = Ok (H_PRE
           ++ String.concat nl
                (map (fun fuse => "bool " ++ accessor fuse ++ "();")
                     (keys (fuse_items example_schema)))
           ++ H_POST,
           CC_PRE ++ wire 3 (fuse_items example_schema) ++ CC_MID
           ++ String.concat (nl ++ nl)
                (definitions (String.length SENTINEL + 1)
                   (keys (fuse_items example_schema)))
           ++ CC_POST).
Proof.
  split; [by_evaluation|]. split; [reflexivity|].
  apply (accessor_names example_schema 3); by_evaluation.
Defined.

(** C7.  For a valid schema the two files written depend on the schema
    alone: runs started in any two file systems where both paths can be
    written succeed and leave the same text at each path, and a second run
    after the first leaves every file as the first run left it. *)
Theorem generation_is_deterministic (doc : dict) (version : nat)
  (argv1 argv2 : string) (fs fs' : filesystem) :
  valid_schema doc version ->
  writable fs argv1 = true -> writable fs argv2 = true ->
  writable fs' argv1 = true -> writable fs' argv2 = true ->
  let run1 := main doc argv1 argv2 fs in
  let run2 := main doc argv1 argv2 fs' in
  let again := main doc argv1 argv2 (fst run1) in
  snd run1 = Ok tt /\ snd run2 = Ok tt /\ snd again = Ok tt
  /\ content (fst run1) argv2 = Some (impl_of version (fuse_items doc))
  /\ content (fst run1) argv1
     = Some (if argv1 =? argv2 then impl_of version (fuse_items doc)
             else header_of (keys (fuse_items doc)))
  /\ content (fst run1) argv1 = content (fst run2) argv1
  /\ content (fst run1) argv2 = content (fst run2) argv2
  /\ forall path, content (fst again) path = content (fst run1) path.
Proof.
  intros Hvalid H1 H2 H1' H2' run1 run2 again.
  pose proof (render_valid doc version Hvalid) as Hr.
  assert (E1 : run1 = main doc argv1 argv2 fs) by reflexivity.
  assert (E2 : run2 = main doc argv1 argv2 fs') by reflexivity.
  rewrite (main_writes _ _ _ _ _ _ Hr H1 H2) in E1.
  rewrite (main_writes _ _ _ _ _ _ Hr H1' H2') in E2.
  assert (E3 : again = main doc argv1 argv2 (fst run1)) by reflexivity.
  rewrite (main_writes _ _ _ _ _ (fst run1) Hr) in E3
    by (rewrite E1; assumption).
  rewrite E3, E2, E1. cbn [fst snd content writable].
  rewrite !String.eqb_refl.
  conjuncts; try reflexivity.
  - now destruct (argv1 =? argv2).
  - intros path. destruct (path =? argv2); [reflexivity|].
    now destruct (path =? argv1).
Qed.

Lemma generation_is_deterministic_witness :
  valid_schema example_schema 3
  /\ writable (rw ["fuses.h"; "fuses.cc"]) "fuses.h" = true
  /\ writable (rw ["fuses.h"; "fuses.cc"]) "fuses.cc" = true
  /\ writable (rw ["fuses.cc"; "fuses.h"; "other"]) "fuses.h" = true
  /\ writable (rw ["fuses.cc"; "fuses.h"; "other"]) "fuses.cc" = true
  /\ content
       (fst (main example_schema "fuses.h" "fuses.cc"
               (rw ["fuses.h"; "fuses.cc"]))) "fuses.cc"
     = content
         (fst (main example_schema "fuses.h" "fuses.cc"
                 (rw ["fuses.cc"; "fuses.h"; "other"]))) "fuses.cc".
Proof.
  do 5 (split; [by_evaluation|]).
  apply (generation_is_deterministic example_schema 3 "fuses.h" "fuses.cc"
           (rw ["fuses.h"; "fuses.cc"]) (rw ["fuses.cc"; "fuses.h"; "other"]));
    by_evaluation.
Defined.

(** C8.  For a valid document with no fuse the bit string is empty, the
    wire is the sentinel followed by [chr(version)], no accessor is
    declared or defined, and both files are written. *)
Theorem empty_fuse_set (doc : dict) (version : nat)
  (argv1 argv2 : string) (fs : filesystem) :
  valid_schema doc version ->
  fuse_items doc = [] ->
  writable fs argv1 = true -> writable fs argv2 = true ->
  bitstring (fuse_items doc) = EmptyString
  /\ wire version (fuse_items doc) = SENTINEL ++ chr version
  /\ render doc
     = Ok (H_PRE ++ H_POST,
           CC_PRE ++ (SENTINEL ++ chr version) ++ CC_MID ++ CC_POST)
  /\ snd (main doc argv1 argv2 fs) = Ok tt
  /\ content (fst (main doc argv1 argv2 fs)) argv2
     = Some (CC_PRE ++ (SENTINEL ++ chr version) ++ CC_MID ++ CC_POST)
  /\ (argv1 <> argv2 ->
      content (fst (main doc argv1 argv2 fs)) argv1 = Some (H_PRE ++ H_POST)).
Proof.
  intros Hvalid Hnone H1 H2.
  pose proof (render_valid doc version Hvalid) as Hr.
  rewrite Hnone in *.
  change (header_of (keys [])) with (H_PRE ++ H_POST) in Hr.
  change (impl_of version [])
    with (CC_PRE ++ (SENTINEL ++ chr version) ++ CC_MID ++ CC_POST) in Hr.
  rewrite (main_writes _ _ _ _ _ _ Hr H1 H2). cbn [fst snd content].
  rewrite !String.eqb_refl. conjuncts; try reflexivity; [exact Hr|].
  intros Hne. now destruct (String.eqb_spec argv1 argv2).
Qed.

Lemma empty_fuse_set_witness :
  valid_schema empty_schema 3
  /\ fuse_items empty_schema = []
  /\ writable (rw ["fuses.h"; "fuses.cc"]) "fuses.h" = true
  /\ writable (rw ["fuses.h"; "fuses.cc"]) "fuses.cc" = true
  /\ render empty_schema
     = Ok (H_PRE ++ H_POST, CC_PRE ++ (SENTINEL ++ chr 3) ++ CC_MID ++ CC_POST).
Proof.
  do 4 (split; [by_evaluation|]).
  apply (empty_fuse_set empty_schema 3 "fuses.h" "fuses.cc"
           (rw ["fuses.h"; "fuses.cc"])); by_evaluation.
Defined.

(** C9, as stated: no run leaves exactly one of the two files written.
    When the declarations path can be written and the definitions path
    cannot, the run ends in an error with the declarations file written
    and no definitions file. *)
Lemma one_file_left_written :
  main example_schema "fuses.h" "fuses.cc" (rw ["fuses.h"])
  = (mk_fs (fun p => if p =? "fuses.h"
                     then Some (header_of (keys (fuse_items example_schema)))
                     else None)
           (writable (rw ["fuses.h"])),
     Raise (OSError "fuses.cc"))
  /\ content (fst (main example_schema "fuses.h" "fuses.cc" (rw ["fuses.h"])))
       "fuses.h"
     = Some (header_of (keys (fuse_items example_schema)))
  /\ content (fst (main example_schema "fuses.h" "fuses.cc" (rw ["fuses.h"])))
       "fuses.cc"
     = None.
Proof. by_evaluation. Qed.

(** C9, amended.  Both texts are rendered before a file is opened.  A run
    ends in one of four ways: rendering raises and no file is touched; the
    declarations path cannot be opened and no file is touched; the
    declarations file is written, the definitions path cannot be opened,
    and only the declarations file is changed; or both files are
    written. *)
Theorem write_outcomes (doc : dict) (argv1 argv2 : string) (fs : filesystem) :
  (exists e, render doc = Raise e /\ main doc argv1 argv2 fs = (fs, Raise e))
  \/ (exists header impl,
        render doc = Ok (header, impl)
        /\ writable fs argv1 = false
        /\ main doc argv1 argv2 fs = (fs, Raise (OSError argv1)))
  \/ (exists header impl,
        render doc = Ok (header, impl)
        /\ writable fs argv1 = true /\ writable fs argv2 = false
        /\ snd (main doc argv1 argv2 fs) = Raise (OSError argv2)
        /\ content (fst (main doc argv1 argv2 fs)) argv1 = Some header
        /\ forall path, path <> argv1 ->
             content (fst (main doc argv1 argv2 fs)) path = content fs path)
  \/ (exists header impl,
        render doc = Ok (header, impl)
        /\ writable fs argv1 = true /\ writable fs argv2 = true
        /\ snd (main doc argv1 argv2 fs) = Ok tt
        /\ content (fst (main doc argv1 argv2 fs)) argv2 = Some impl
        /\ (argv1 <> argv2 ->
            content (fst (main doc argv1 argv2 fs)) argv1 = Some header)
        /\ forall path, path <> argv1 -> path <> argv2 ->
             content (fst (main doc argv1 argv2 fs)) path = content fs path).
Proof.
  destruct (render doc) as [[header impl]|e] eqn:Hr.
  2:{ left. exists e. split; [reflexivity | now apply main_raises]. }
  right. destruct (writable fs argv1) eqn:H1.
  2:{ left. exists header, impl. conjuncts; try reflexivity. unfold main.
      now rewrite Hr, write_file_denied. }
  right. destruct (writable fs argv2) eqn:H2.
  - right. exists header, impl.
    rewrite (main_writes _ _ _ _ _ _ Hr H1 H2). cbn [fst snd content].
    rewrite String.eqb_refl. conjuncts; try reflexivity.
    + intros Hne. destruct (String.eqb_spec argv1 argv2) as [E|_];
        [now elim Hne|]. now rewrite String.eqb_refl.
    + intros path Hp1 Hp2.
      destruct (String.eqb_spec path argv2); [contradiction|].
      now destruct (String.eqb_spec path argv1).
  - left. exists header, impl. unfold main.
    rewrite Hr, (write_file_ok _ _ _ H1), write_file_denied by exact H2.
    cbn [fst snd content]. rewrite String.eqb_refl. conjuncts; try reflexivity.
    intros path Hp. now destruct (String.eqb_spec path argv1).
Qed.

(** C10.  A document without [_version], or without [_comment], makes the
    script raise [KeyError] for the missing key, whatever the version is,
    and no file is touched; yet the value of [_comment] is ignored: the
    document completed with a comment renders the same for every value of
    the comment. *)
Theorem missing_metadata_key (doc : dict)
  (argv1 argv2 : string) (fs : filesystem) :
  dict_get "_version" doc = None \/ dict_get "_comment" doc = None ->
  main doc argv1 argv2 fs
  = (fs, Raise (KeyError (match dict_get "_version" doc with
                          | None => "_version"
                          | Some _ => "_comment"
                          end)))
  /\ forall c1 c2 : value,
       render (doc ++ [("_comment", c1)])%list
       = render (doc ++ [("_comment", c2)])%list.
Proof.
  intros H. split.
  - apply main_raises. unfold render, getitem.
    destruct (dict_get "_version" doc) as [ver|] eqn:Hv; [|reflexivity].
    destruct H as [H|Hc]; [discriminate|]. cbn [bind].
    destruct (delitem_present "_version" doc) as [d1 E1]; [now rewrite Hv|].
    rewrite E1. cbn [bind]. rewrite delitem_missing; [reflexivity|].
    rewrite (delitem_keeps "_version" "_comment" doc d1); [exact Hc| |exact E1].
    discriminate.
  - intros c1 c2. unfold render, getitem.
    rewrite !dict_get_app_other by discriminate.
    destruct (dict_get "_version" doc) as [ver|] eqn:Hv; [|reflexivity].
    destruct H as [H|Hc]; [discriminate|]. cbn [bind].
    rewrite !delitem_app_other by discriminate.
    destruct (delitem "_version" doc) as [d1|e] eqn:E1; [|reflexivity].
    cbn [bind].
    assert (Hc1 : dict_get "_comment" d1 = None).
    { rewrite (delitem_keeps "_version" "_comment" doc d1);
        [exact Hc| |exact E1]. discriminate. }
    now rewrite !delitem_app_last.
Qed.

Lemma missing_metadata_key_witness :
  (dict_get "_version" uncommented_schema = None
   \/ dict_get "_comment" uncommented_schema = None)
  /\ main uncommented_schema "fuses.h" "fuses.cc" (rw ["fuses.h"; "fuses.cc"])
     = (rw ["fuses.h"; "fuses.cc"], Raise (KeyError "_comment")).
Proof.
  split; [right; reflexivity|].
  apply (missing_metadata_key uncommented_schema "fuses.h" "fuses.cc"
           (rw ["fuses.h"; "fuses.cc"])).
  right. reflexivity.
Defined.

(** ** Further properties: the version *)

Lemma generate_accepts (fuse_version : value) (fuses : dict) (n : nat) :
  distinct_keys fuses = true ->
  ge_pow_2_8 fuse_version = Ok false ->
  chr_value fuse_version = Ok (chr n) ->
  generate fuse_version fuses = Ok (header_of (keys fuses), impl_of n fuses).
Proof.
  intros Hd Hge Hchr. unfold generate. rewrite Hge. cbn [bind].
  rewrite (loop_items fuses Hd fuses [] _ eq_refl).
  cbn [bind index initial_config getters_h getters_cc append].
  rewrite Hchr. cbn [bind]. rewrite header_replace. unfold chr.
  rewrite impl_replace.
  rewrite (strip_blocks EmptyString), (strip_blocks nl).
  - unfold header_of, impl_of, wire, chr. now rewrite append_nil_r.
  - reflexivity.
  - apply solid_definitions.
  - reflexivity.
  - clear. induction (keys fuses) as [|k r IH]; constructor;
      [apply solid_declaration | exact IH].
Qed.

Lemma generate_chr_raises (fuse_version : value) (fuses : dict) (e : exn) :
  distinct_keys fuses = true ->
  ge_pow_2_8 fuse_version = Ok false ->
  chr_value fuse_version = Raise e ->
  generate fuse_version fuses = Raise e.
Proof.
  intros Hd Hge Hchr. unfold generate. rewrite Hge. cbn [bind].
  rewrite (loop_items fuses Hd fuses [] _ eq_refl). cbn [bind].
  now rewrite Hchr.
Qed.

Lemma render_no_version (doc : dict) :
  dict_get "_version" doc = None -> render doc = Raise (KeyError "_version").
Proof. intros H. unfold render, getitem. now rewrite H. Qed.

Lemma render_no_comment (doc : dict) (fuse_version : value) :
  dict_get "_version" doc = Some fuse_version ->
  dict_get "_comment" doc = None ->
  render doc = Raise (KeyError "_comment").
Proof.
  intros Hv Hc. unfold render, getitem. rewrite Hv. cbn [bind].
  destruct (delitem_present "_version" doc) as [d1 E1]; [now rewrite Hv|].
  rewrite E1. cbn [bind]. rewrite delitem_missing; [reflexivity|].
  rewrite (delitem_keeps "_version" "_comment" doc d1); [exact Hc| |exact E1].
  discriminate.
Qed.

(** The outcome of lines 51 to 76 by cases on the document. *)
Lemma render_cases (doc : dict) :
  distinct_keys doc = true ->
  render doc
  = match dict_get "_version" doc, dict_get "_comment" doc with
    | None, _ => Raise (KeyError "_version")
    | Some _, None => Raise (KeyError "_comment")
    | Some (VNull | VStr _), Some _ => Raise TypeError
    | Some (VBool b), Some _ =>
        Ok (header_of (keys (fuse_items doc)),
            impl_of (if b then 1 else 0) (fuse_items doc))
    | Some (VInt z), Some _ =>
        if (256 <=? z)%Z
        then Raise (Exception "Fuse version can not exceed one byte in size")
        else if (z <? 0)%Z
        then Raise (if (z <? -2147483648)%Z
                    then OverflowError else ValueError)
        else Ok (header_of (keys (fuse_items doc)),
                 impl_of (Z.to_nat z) (fuse_items doc))
    end.
Proof.
  intros Hd.
  destruct (dict_get "_version" doc) as [ver|] eqn:Hv;
    [|now apply render_no_version].
  destruct (dict_get "_comment" doc) as [c|] eqn:Hc.
  2:{ rewrite (render_no_comment doc ver Hv Hc). now destruct ver. }
  rewrite (render_metadata doc ver Hd Hv) by now rewrite Hc.
  pose proof (distinct_fuse_items doc Hd) as Hf.
  destruct ver as [|b|z|s]; try reflexivity.
  - now apply generate_accepts.
  - destruct (256 <=? z)%Z eqn:Hbig.
    + unfold generate. cbn [ge_pow_2_8 bind]. now rewrite Hbig.
    + destruct (z <? 0)%Z eqn:Hneg.
      * apply generate_chr_raises; cbn [ge_pow_2_8 chr_value];
          [exact Hf | now rewrite Hbig | now rewrite Hneg].
      * apply generate_accepts; cbn [ge_pow_2_8 chr_value];
          [exact Hf | now rewrite Hbig | now rewrite Hneg].
Qed.

(** X1.  A version that is a string or null does not compare with 256:
    the script raises [TypeError] at the check and touches no file. *)
Theorem version_not_a_number_raises (doc : dict) (fuse_version : value)
  (argv1 argv2 : string) (fs : filesystem) :
  distinct_keys doc = true ->
  dict_get "_version" doc = Some fuse_version ->
  fuse_version = VNull \/ (exists s, fuse_version = VStr s) ->
  dict_get "_comment" doc <> None ->
  main doc argv1 argv2 fs = (fs, Raise TypeError).
Proof.
  intros Hd Hv Hkind Hc. apply main_raises.
  rewrite (render_cases doc Hd), Hv.
  destruct (dict_get "_comment" doc); [|now elim Hc].
  now destruct Hkind as [->|[s ->]].
Qed.

Lemma version_not_a_number_raises_witness :
  distinct_keys [("_version", VStr "3"); ("_comment", VStr "x");
                 ("enable_widget", VBool true)] = true
  /\ main [("_version", VStr "3"); ("_comment", VStr "x");
           ("enable_widget", VBool true)]
          "fuses.h" "fuses.cc" (rw ["fuses.h"; "fuses.cc"])
     = (rw ["fuses.h"; "fuses.cc"], Raise TypeError).
Proof.
  split; [reflexivity|].
  apply (version_not_a_number_raises _ (VStr "3"));
    [reflexivity | reflexivity | right; now exists "3" | discriminate].
Defined.

(** X2.  A negative integer version passes the size check, which only
    bounds the version from above; [chr] then raises, after the loop and
    before any file is opened: [OverflowError] for a version below
    [-2^31], which does not fit a C [int], and [ValueError] for any other
    negative version. *)
Theorem negative_version_raises (doc : dict) (z : Z)
  (argv1 argv2 : string) (fs : filesystem) :
  distinct_keys doc = true ->
  dict_get "_version" doc = Some (VInt z) ->
  (z < 0)%Z ->
  dict_get "_comment" doc <> None ->
  main doc argv1 argv2 fs
  = (fs, Raise (if (z <? -2147483648)%Z then OverflowError else ValueError)).
Proof.
  intros Hd Hv Hz Hc. apply main_raises.
  rewrite (render_cases doc Hd), Hv.
  destruct (dict_get "_comment" doc); [|now elim Hc].
  replace (256 <=? z)%Z with false by (symmetry; apply Z.leb_gt; lia).
  now replace (z <? 0)%Z with true by (symmetry; apply Z.ltb_lt; lia).
Qed.

Lemma negative_version_raises_witness :
  (distinct_keys [("_version", VInt (-1)); ("_comment", VStr "x");
                  ("enable_widget", VBool true)] = true
   /\ (-1 < 0)%Z
   /\ main [("_version", VInt (-1)); ("_comment", VStr "x");
            ("enable_widget", VBool true)]
           "fuses.h" "fuses.cc" (rw ["fuses.h"; "fuses.cc"])
      = (rw ["fuses.h"; "fuses.cc"], Raise ValueError))
  /\ (distinct_keys [("_version", VInt (-2147483649)); ("_comment", VStr "x");
                     ("enable_widget", VBool true)] = true
      /\ (-2147483649 < 0)%Z
      /\ main [("_version", VInt (-2147483649)); ("_comment", VStr "x");
               ("enable_widget", VBool true)]
              "fuses.h" "fuses.cc" (rw ["fuses.h"; "fuses.cc"])
         = (rw ["fuses.h"; "fuses.cc"], Raise OverflowError)).
Proof.
  split; (split; [reflexivity|]; split; [lia|]).
  - apply (negative_version_raises
             [("_version", VInt (-1)); ("_comment", VStr "x");
              ("enable_widget", VBool true)] (-1));
      [reflexivity | reflexivity | lia | discriminate].
  - apply (negative_version_raises
             [("_version", VInt (-2147483649)); ("_comment", VStr "x");
              ("enable_widget", VBool true)] (-2147483649));
      [reflexivity | reflexivity | lia | discriminate].
Defined.

(** X3.  A Boolean version is taken as the integer 0 or 1: the check lets
    it through and the files are those of version 0 or 1. *)
Theorem boolean_version_is_0_or_1 (doc : dict) (b : bool) :
  distinct_keys doc = true ->
  dict_get "_version" doc = Some (VBool b) ->
  dict_get "_comment" doc <> None ->
  render doc
  = Ok (header_of (keys (fuse_items doc)),
        impl_of (if b then 1 else 0) (fuse_items doc)).
Proof.
  intros Hd Hv Hc. rewrite (render_cases doc Hd), Hv.
  now destruct (dict_get "_comment" doc); [|elim Hc].
Qed.

Lemma boolean_version_is_0_or_1_witness :
  distinct_keys [("_version", VBool true); ("_comment", VStr "x");
                 ("enable_widget", VBool true)] = true
  /\ render [("_version", VBool true); ("_comment", VStr "x");
             ("enable_widget", VBool true)]
     = Ok (header_of ["enable_widget"],
           impl_of 1 [("enable_widget", VBool true)]).
Proof.
  split; [reflexivity|].
  apply (boolean_version_is_0_or_1
           [("_version", VBool true); ("_comment", VStr "x");
            ("enable_widget", VBool true)] true);
    [reflexivity | reflexivity | discriminate].
Defined.

(** X4.  The documents the script accepts: rendering succeeds exactly
    when the document has a comment and its version is a Boolean or an
    integer from 0 to 255. *)
Theorem render_succeeds_iff (doc : dict) :
  distinct_keys doc = true ->
  (exists header impl, render doc = Ok (header, impl))
  <-> (dict_get "_comment" doc <> None
       /\ ((exists b, dict_get "_version" doc = Some (VBool b))
           \/ (exists z, dict_get "_version" doc = Some (VInt z)
                         /\ (0 <= z < 256)%Z))).
Proof.
  intros Hd. rewrite (render_cases doc Hd). split.
  - intros (header & impl & H).
    destruct (dict_get "_version" doc) as [ver|]; [|discriminate H].
    destruct (dict_get "_comment" doc) as [c|];
      [|destruct ver; discriminate H].
    split; [discriminate|].
    destruct ver as [|b|z|s]; try discriminate H.
    + left. now exists b.
    + right. exists z. split; [reflexivity|].
      destruct (256 <=? z)%Z eqn:Hbig; [discriminate H|].
      destruct (z <? 0)%Z eqn:Hneg; [discriminate H|].
      apply Z.leb_gt in Hbig. apply Z.ltb_ge in Hneg. lia.
  - intros (Hc & [[b Hv]|(z & Hv & Hz)]); rewrite Hv;
      (destruct (dict_get "_comment" doc); [|now elim Hc]).
    + now eexists _, _.
    + replace (256 <=? z)%Z with false by (symmetry; apply Z.leb_gt; lia).
      replace (z <? 0)%Z with false by (symmetry; apply Z.ltb_ge; lia).
      now eexists _, _.
Qed.

Lemma render_succeeds_iff_witness :
  distinct_keys example_schema = true
  /\ ((exists header impl, render example_schema = Ok (header, impl))
      <-> (dict_get "_comment" example_schema <> None
           /\ ((exists b, dict_get "_version" example_schema = Some (VBool b))
               \/ (exists z, dict_get "_version" example_schema = Some (VInt z)
                             /\ (0 <= z < 256)%Z)))).
Proof.
  split; [reflexivity|].
  apply (render_succeeds_iff example_schema). reflexivity.
Defined.

(** ** Further properties: the metadata keys *)

Lemma dict_get_without_self (k : string) (d : dict) :
  dict_get k (without k d) = None.
Proof.
  induction d as [|[k0 v0] d IH]; [reflexivity|].
  cbn [without filter fst]. destruct (String.eqb_spec k0 k) as [->|n];
    cbn [negb dict_get]; [exact IH|].
  destruct (String.eqb_spec k0 k); [contradiction | exact IH].
Qed.

Lemma fuse_items_no_version (doc : dict) :
  dict_get "_version" (fuse_items doc) = None.
Proof.
  unfold fuse_items. rewrite dict_get_without by discriminate.
  apply dict_get_without_self.
Qed.

Lemma fuse_items_no_comment (doc : dict) :
  dict_get "_comment" (fuse_items doc) = None.
Proof. apply dict_get_without_self. Qed.

Lemma fuse_items_fixed (d : dict) :
  dict_get "_version" d = None -> dict_get "_comment" d = None ->
  fuse_items d = d.
Proof.
  intros Hv Hc. unfold fuse_items. rewrite (without_absent "_version" d Hv).
  now apply without_absent.
Qed.

(** X5.  Where the two metadata keys stand in the document, and what the
    comment says, does not matter: the document renders as the one that
    starts with the version and a comment and goes on with the fuse
    entries in their order. *)
Theorem metadata_position_is_irrelevant (doc : dict)
  (fuse_version comment comment' : value) :
  distinct_keys doc = true ->
  dict_get "_version" doc = Some fuse_version ->
  dict_get "_comment" doc = Some comment ->
  render doc
  = render (("_version", fuse_version) :: ("_comment", comment')
            :: fuse_items doc).
Proof.
  intros Hd Hv Hc.
  rewrite (render_metadata doc fuse_version Hd Hv) by now rewrite Hc.
  pose proof (fuse_items_no_version doc) as Nv.
  pose proof (fuse_items_no_comment doc) as Nc.
  rewrite (render_metadata _ fuse_version).
  - change (fuse_items (("_version", fuse_version) :: ("_comment", comment')
                        :: fuse_items doc))
      with (fuse_items (fuse_items doc)).
    now rewrite (fuse_items_fixed (fuse_items doc) Nv Nc).
  - cbn [distinct_keys dict_get String.eqb Ascii.eqb Bool.eqb].
    rewrite Nv, Nc. now apply distinct_fuse_items.
  - reflexivity.
  - discriminate.
Qed.

Lemma metadata_position_is_irrelevant_witness :
  distinct_keys [("enable_widget", VBool true); ("_comment", VStr "x");
                 ("enable_gadget", VBool false); ("_version", VInt 3)] = true
  /\ render [("enable_widget", VBool true); ("_comment", VStr "x");
             ("enable_gadget", VBool false); ("_version", VInt 3)]
     = render example_schema.
Proof.
  split; [reflexivity|].
  apply (metadata_position_is_irrelevant
           [("enable_widget", VBool true); ("_comment", VStr "x");
            ("enable_gadget", VBool false); ("_version", VInt 3)]
           (VInt 3) (VStr "x") (VStr "x")); reflexivity.
Defined.

(** ** Further properties: accessor names *)

Ltac by_ascii_cases c := destruct c as [[] [] [] [] [] [] [] []]; reflexivity.

Lemma split_nonempty (sep : ascii) (s : string) : split sep s <> [].
Proof.
  destruct s as [|c s]; cbn [split]; [discriminate|].
  destruct (Ascii.eqb c sep); [discriminate|].
  destruct (split sep s); discriminate.
Qed.

Lemma split_app (sep : ascii) (a b : string) :
  split sep (a ++ String sep b) = (split sep a ++ split sep b)%list.
Proof.
  induction a as [|c a IH]; cbn [append split].
  - now rewrite Ascii.eqb_refl.
  - destruct (Ascii.eqb c sep); [now rewrite IH|].
    rewrite IH. pose proof (split_nonempty sep a) as Hne.
    now destruct (split sep a).
Qed.

Lemma join_app (l1 l2 : list string) :
  join (l1 ++ l2)%list = join l1 ++ join l2.
Proof.
  induction l1 as [|w l1 IH]; [reflexivity|].
  cbn [List.app]. now rewrite !join_cons, IH, append_assoc.
Qed.

(** X6.  The accessor name of an identifier is put together from the
    accessor names of its parts on either side of an underscore; the
    underscore itself leaves no trace. *)
Theorem accessor_name_of_joined_parts (a b : string) :
  accessor_name (a ++ "_" ++ b) = accessor_name a ++ accessor_name b.
Proof.
  unfold accessor_name. cbn [append].
  now rewrite split_app, map_app, join_app.
Qed.

Lemma all_chars_append (p : ascii -> bool) (a b : string) :
  all_chars p a = true -> all_chars p b = true ->
  all_chars p (a ++ b) = true.
Proof.
  intros Ha Hb. induction a as [|c a IH]; [exact Hb|].
  cbn [append all_chars] in *. apply andb_true_iff in Ha as [H1 H2].
  now rewrite H1, IH.
Qed.

Lemma is_alnum_to_upper (c : ascii) : is_alnum (to_upper c) = is_alnum c.
Proof. by_ascii_cases c. Qed.

Lemma is_alnum_to_lower (c : ascii) : is_alnum (to_lower c) = is_alnum c.
Proof. by_ascii_cases c. Qed.

Lemma alnum_title_from (s : string) : forall p,
  all_chars is_alnum s = true -> all_chars is_alnum (title_from p s) = true.
Proof.
  induction s as [|c s IH]; intros p H; [reflexivity|].
  cbn [all_chars title_from] in *. apply andb_true_iff in H as [H1 H2].
  rewrite (IH _ H2), andb_true_r.
  destruct p; [now rewrite is_alnum_to_lower | now rewrite is_alnum_to_upper].
Qed.

Lemma alnum_words (s : string) :
  all_chars is_ident_char s = true ->
  Forall (fun w => all_chars is_alnum w = true) (split "_" s).
Proof.
  induction s as [|c s IH]; cbn [all_chars split]; [now repeat constructor|].
  intros H. apply andb_true_iff in H as [H1 H2]. specialize (IH H2).
  unfold is_ident_char in H1. destruct (Ascii.eqb c "_").
  - now constructor.
  - rewrite orb_false_r in H1. destruct (split "_" s) as [|w ws];
      [now repeat constructor; cbn; rewrite H1|].
    inversion IH; subst. constructor; [|assumption].
    cbn [all_chars]. now rewrite H1.
Qed.

(** X7.  An identifier made of letters, digits and underscores gets an
    accessor made of letters and digits only. *)
Theorem snake_case_accessor_is_alphanumeric (fuse : string) :
  all_chars is_ident_char fuse = true ->
  all_chars is_alnum (accessor fuse) = true.
Proof.
  intros H. unfold accessor, accessor_name.
  apply (all_chars_append is_alnum "Is"); [reflexivity|].
  apply all_chars_append; [|reflexivity].
  induction (alnum_words fuse H) as [|w ws Hw _ IH]; [reflexivity|].
  cbn [map]. rewrite join_cons. apply all_chars_append; [|exact IH].
  now apply alnum_title_from.
Qed.

Lemma snake_case_accessor_is_alphanumeric_witness :
  all_chars is_ident_char "enable_v8_flags2" = true
  /\ all_chars is_alnum (accessor "enable_v8_flags2") = true.
Proof.
  split; [reflexivity|].
  apply (snake_case_accessor_is_alphanumeric "enable_v8_flags2"). reflexivity.
Defined.

Lemma to_upper_to_lower (c : ascii) : to_upper (to_lower c) = to_upper c.
Proof. by_ascii_cases c. Qed.

Lemma to_lower_to_lower (c : ascii) : to_lower (to_lower c) = to_lower c.
Proof. by_ascii_cases c. Qed.

Lemma underscore_to_lower (c : ascii) :
  Ascii.eqb (to_lower c) "_" = Ascii.eqb c "_".
Proof. by_ascii_cases c. Qed.

Lemma title_from_lower_all (s : string) : forall p,
  title_from p (lower_all s) = title_from p s.
Proof.
  induction s as [|c s IH]; intros p; [reflexivity|].
  cbn [lower_all title_from].
  now rewrite IH, is_cased_to_lower, to_upper_to_lower, to_lower_to_lower.
Qed.

Lemma split_lower_all (s : string) :
  split "_" (lower_all s) = map lower_all (split "_" s).
Proof.
  induction s as [|c s IH]; [reflexivity|].
  cbn [lower_all split]. rewrite underscore_to_lower, IH.
  destruct (Ascii.eqb c "_"); [reflexivity|].
  pose proof (split_nonempty "_" s) as Hne.
  now destruct (split "_" s).
Qed.

Lemma accessor_name_lower_all (s : string) :
  accessor_name (lower_all s) = accessor_name s.
Proof.
  unfold accessor_name. rewrite split_lower_all, map_map. f_equal.
  apply map_ext. intros w. apply title_from_lower_all.
Qed.

(** X8.  The accessor name does not depend on the letter case of the
    identifier: two ASCII identifiers that differ in case only get the
    same accessor. *)
Theorem accessor_ignores_case (a b : string) :
  ascii7 a = true -> ascii7 b = true ->
  lower_all a = lower_all b ->
  accessor a = accessor b.
Proof.
  intros _ _ H. unfold accessor.
  now rewrite <- (accessor_name_lower_all a), H, accessor_name_lower_all.
Qed.

Lemma accessor_ignores_case_witness :
  ascii7 "enable_widget" = true /\ ascii7 "Enable_WIDGET" = true
  /\ lower_all "enable_widget" = lower_all "Enable_WIDGET"
  /\ accessor "enable_widget" = accessor "Enable_WIDGET".
Proof.
  do 3 (split; [reflexivity|]).
  apply (accessor_ignores_case "enable_widget" "Enable_WIDGET"); reflexivity.
Defined.

(** ** Further properties: the wire and the fuse defaults *)

Lemma string_length_append (a b : string) :
  String.length (a ++ b) = String.length a + String.length b.
Proof.
  induction a as [|x a IH]; cbn [append String.length];
    [reflexivity | now rewrite IH].
Qed.

Lemma append_inv_head (a x y : string) : a ++ x = a ++ y -> x = y.
Proof.
  induction a as [|c a IH]; cbn [append]; [trivial|].
  intros [= H]. now apply IH.
Qed.

Lemma fuse_items_app (a b : dict) :
  fuse_items (a ++ b)%list = (fuse_items a ++ fuse_items b)%list.
Proof. unfold fuse_items, without. now rewrite !filter_app. Qed.

Lemma fuse_items_fuse (k : string) (v : value) (d : dict) :
  k <> "_version" -> k <> "_comment" ->
  fuse_items ((k, v) :: d) = (k, v) :: fuse_items d.
Proof.
  intros Hv Hc. unfold fuse_items, without. cbn [filter fst].
  destruct (String.eqb_spec k "_version"); [contradiction|].
  cbn [negb filter fst].
  now destruct (String.eqb_spec k "_comment").
Qed.

Lemma bitstring_app (a b : dict) :
  bitstring (a ++ b)%list = bitstring a ++ bitstring b.
Proof.
  induction a as [|[k v] a IH]; [reflexivity|].
  cbn [List.app bitstring append]. now rewrite IH.
Qed.

Lemma dict_get_none_other_value (k k0 : string) (v v' : value)
  (post : dict) : forall pre : dict,
  dict_get k0 (pre ++ (k, v) :: post)%list = None ->
  dict_get k0 (pre ++ (k, v') :: post)%list = None.
Proof.
  induction pre as [|[k1 v1] pre IH]; cbn [List.app dict_get].
  - now destruct (k =? k0).
  - destruct (k1 =? k0); [discriminate | exact IH].
Qed.

Lemma dict_get_other_value (k k0 : string) (v v' : value) (post : dict) :
  k0 <> k -> forall pre : dict,
  dict_get k0 (pre ++ (k, v) :: post)%list
  = dict_get k0 (pre ++ (k, v') :: post)%list.
Proof.
  intros Hne. induction pre as [|[k1 v1] pre IH]; cbn [List.app dict_get].
  - destruct (String.eqb_spec k k0) as [E|_]; [now elim Hne | reflexivity].
  - now rewrite IH.
Qed.

Lemma distinct_keys_other_value (k : string) (v v' : value) (post : dict) :
  forall pre : dict,
  distinct_keys (pre ++ (k, v) :: post)%list = true ->
  distinct_keys (pre ++ (k, v') :: post)%list = true.
Proof.
  induction pre as [|[k1 v1] pre IH]; cbn [List.app distinct_keys];
    [trivial|].
  destruct (dict_get k1 (pre ++ (k, v) :: post)%list) eqn:E; [discriminate|].
  rewrite (dict_get_none_other_value k k1 v v' post pre E). exact IH.
Qed.

(** X9.  Changing the default of one fuse changes one character of the
    definitions file, the one at the fuse's offset in the wire, and
    nothing in the declarations file. *)
Theorem default_changes_one_character (pre post : dict) (k : string)
  (v v' : value) (version : nat) :
  valid_schema (pre ++ (k, v) :: post)%list version ->
  k <> "_version" -> k <> "_comment" ->
  exists header before after : string,
    render (pre ++ (k, v) :: post)%list
    = Ok (header, before ++ String (bit v) after)
    /\ render (pre ++ (k, v') :: post)%list
       = Ok (header, before ++ String (bit v') after)
    /\ String.length before
       = String.length CC_PRE + String.length SENTINEL + 1
         + List.length (fuse_items pre).
Proof.
  intros (Hd & Hv & Hlt & Hc) Hkv Hkc.
  assert (Hvalid' : valid_schema (pre ++ (k, v') :: post)%list version).
  { split; [exact (distinct_keys_other_value k v v' post pre Hd)|].
    split; [now rewrite <- (dict_get_other_value k "_version" v v' post)|].
    split; [exact Hlt|].
    now rewrite <- (dict_get_other_value k "_comment" v v' post). }
  rewrite (render_valid _ _ Hvalid'),
          (render_valid _ version (conj Hd (conj Hv (conj Hlt Hc)))).
  rewrite !fuse_items_app, !fuse_items_fuse by assumption.
  exists (header_of (keys (fuse_items pre ++ (k, v) :: fuse_items post)%list)).
  exists (CC_PRE ++ SENTINEL ++ chr version ++ bitstring (fuse_items pre)).
  exists (bitstring (fuse_items post) ++ CC_MID
          ++ String.concat (nl ++ nl)
               (definitions (String.length SENTINEL + 1)
                  (keys (fuse_items pre ++ (k, v) :: fuse_items post)%list))
          ++ CC_POST).
  assert (K : keys (fuse_items pre ++ (k, v') :: fuse_items post)%list
              = keys (fuse_items pre ++ (k, v) :: fuse_items post)%list).
  { unfold keys. now rewrite !map_app. }
  split; [|split].
  - unfold impl_of, wire. rewrite bitstring_app. cbn [bitstring].
    now rewrite !append_assoc.
  - unfold impl_of, wire. rewrite K, bitstring_app. cbn [bitstring].
    now rewrite !append_assoc.
  - rewrite !string_length_append, length_bitstring. cbn [chr String.length].
    lia.
Qed.

Lemma default_changes_one_character_witness :
  valid_schema example_schema 3
  /\ "enable_widget" <> "_version" /\ "enable_widget" <> "_comment"
  /\ exists header before after : string,
       render example_schema
       = Ok (header, before ++ String (bit (VBool true)) after)
       /\ render [("_version", VInt 3); ("_comment", VStr "x");
                  ("enable_widget", VBool false);
                  ("enable_gadget", VBool false)]
          = Ok (header, before ++ String (bit (VBool false)) after)
       /\ String.length before
          = String.length CC_PRE + String.length SENTINEL + 1 + 0.
Proof.
  split; [by_evaluation|]. split; [discriminate|]. split; [discriminate|].
  apply (default_changes_one_character
           [("_version", VInt 3); ("_comment", VStr "x")]
           [("enable_gadget", VBool false)]
           "enable_widget" (VBool true) (VBool false) 3);
    by_evaluation.
Defined.

Lemma bits_before_delimiter (q : ascii) (a : string) : forall b x y : string,
  avoids q a = true -> avoids q b = true ->
  a ++ String q x = b ++ String q y -> a = b.
Proof.
  induction a as [|c a IH]; intros [|d b] x y Ha Hb; cbn [append avoids] in *.
  - reflexivity.
  - intros [= <- _]. now rewrite Ascii.eqb_refl in Hb.
  - intros [= -> _]. now rewrite Ascii.eqb_refl in Ha.
  - apply andb_true_iff in Ha as [_ Ha]. apply andb_true_iff in Hb as [_ Hb].
    intros [= -> H]. f_equal. exact (IH b x y Ha Hb H).
Qed.

Lemma states_of_bitstring (f : dict) : forall f' : dict,
  bitstring f = bitstring f' -> states f = states f'.
Proof.
  induction f as [|[k v] f IH]; intros [|[k' v'] f']; cbn [bitstring];
    try discriminate; [reflexivity|].
  intros [= Hb H]. unfold states. cbn [map snd]. f_equal; [|exact (IH f' H)].
  unfold bit in Hb. now destruct (truthy v), (truthy v').
Qed.

(** X10.  The definitions file determines the version and the state of
    every fuse: two valid schemas with the same definitions file have the
    same version and the same truth values of the defaults, in order. *)
Theorem definitions_file_determines_states (doc doc' : dict)
  (version version' : nat) (header header' impl : string) :
  valid_schema doc version -> valid_schema doc' version' ->
  render doc = Ok (header, impl) -> render doc' = Ok (header', impl) ->
  version = version' /\ states (fuse_items doc) = states (fuse_items doc').
Proof.
  intros Hvalid Hvalid' Hr Hr'.
  rewrite (render_valid doc version Hvalid) in Hr.
  rewrite (render_valid doc' version' Hvalid') in Hr'.
  pose proof (f_equal (fun r => match r with
                               | Ok p => snd p
                               | Raise _ => EmptyString
                               end) Hr) as E.
  pose proof (f_equal (fun r => match r with
                               | Ok p => snd p
                               | Raise _ => EmptyString
                               end) Hr') as E'.
  cbv beta iota delta [snd] in E, E'. rewrite <- E' in E. clear E' Hr Hr'.
  unfold impl_of, wire, chr in E.
  apply append_inv_head in E. rewrite !append_assoc in E.
  apply append_inv_head in E. unfold CC_MID, dq in E. cbn [append] in E.
  injection E as Ec Eb.
  split.
  - destruct Hvalid as (_ & _ & Hlt & _), Hvalid' as (_ & _ & Hlt' & _).
    rewrite <- (nat_ascii_embedding version Hlt),
            <- (nat_ascii_embedding version' Hlt').
    now rewrite Ec.
  - apply states_of_bitstring.
    assert (A : forall f, avoids "034" (bitstring f) = true)
      by (intros f; now apply avoids_bitstring).
    exact (bits_before_delimiter "034" _ _ _ _ (A _) (A _) Eb).
Qed.

Lemma definitions_file_determines_states_witness :
  valid_schema example_schema 3
  /\ valid_schema [("enable_widget", VInt 7); ("_comment", VNull);
                   ("_version", VInt 3); ("enable_gadget", VStr "")] 3
  /\ states [("enable_widget", VBool true); ("enable_gadget", VBool false)]
     = states [("enable_widget", VInt 7); ("enable_gadget", VStr "")].
Proof.
  split; [by_evaluation|]. split; [by_evaluation|].
  apply (definitions_file_determines_states
           example_schema
           [("enable_widget", VInt 7); ("_comment", VNull);
            ("_version", VInt 3); ("enable_gadget", VStr "")]
           3 3
           (header_of ["enable_widget"; "enable_gadget"])
           (header_of ["enable_widget"; "enable_gadget"])
           (impl_of 3 (fuse_items example_schema)));
    by_evaluation.
Defined.

(** ** Further properties: the command line *)

(** X11.  The two paths are read from the command line one at a time.
    For a document that renders: with no path the script raises
    [IndexError] and touches no file; with one path that can be written
    it writes the declarations file and then raises [IndexError]; with
    two paths or more it does what [main] does with the first two. *)
Theorem missing_arguments (doc : dict) (header impl prog path1 : string)
  (fs : filesystem) :
  render doc = Ok (header, impl) ->
  writable fs path1 = true ->
  script doc [] fs = (fs, IndexError)
  /\ script doc [prog] fs = (fs, IndexError)
  /\ script doc [prog; path1] fs
     = (mk_fs (fun p => if p =? path1 then Some header else content fs p)
              (writable fs), IndexError)
  /\ forall path2 more,
       script doc (prog :: path1 :: path2 :: more) fs
       = (fst (main doc path1 path2 fs), Done (snd (main doc path1 path2 fs))).
Proof.
  intros Hr Hw. unfold script, main. rewrite Hr. cbn [nth_error].
  rewrite (write_file_ok path1 header fs Hw).
  conjuncts; reflexivity.
Qed.

Lemma missing_arguments_witness :
  render example_schema
  = Ok (header_of (keys (fuse_items example_schema)),
        impl_of 3 (fuse_items example_schema))
  /\ writable (rw ["fuses.h"]) "fuses.h" = true
  /\ script example_schema ["build.py"; "fuses.h"] (rw ["fuses.h"])
     = (mk_fs (fun p => if p =? "fuses.h"
                        then Some (header_of (keys (fuse_items example_schema)))
                        else content (rw ["fuses.h"]) p)
              (writable (rw ["fuses.h"])), IndexError).
Proof.
  split; [reflexivity|]. split; [reflexivity|].
  apply (missing_arguments example_schema
           (header_of (keys (fuse_items example_schema)))
           (impl_of 3 (fuse_items example_schema))
           "build.py" "fuses.h" (rw ["fuses.h"])); reflexivity.
Defined.
